(** * InstitutionalStaking: a shallow embedding of the custody-and-staking ledger

    The contract [contracts/InstitutionalStaking.sol] is embedded as pure
    functions over an explicit ledger state.  Solidity [uint256] values are
    binary naturals [N]; every [+], [-] and [*] of the source is the checked
    operation of Solidity 0.8 (a result outside [0, 2^256) is a [Panic]
    revert).  A revert discards every storage write of the call, so an
    operation is a function from the state before the call to either an
    error or the state after it together with the effects it produced. *)

From Stdlib Require Import NArith Lia List.
From stdpp Require Import base option gmap fin_maps.
Import ListNotations.

Local Open Scope N_scope.

(** ** Machine integers and errors *)

Definition address : Type := N.

Definition MAX_UINT256 : N := 2 ^ 256 - 1.

(** The literal [1e18] of the source. *)
Definition SCALE : N := 1000000000000000000.

Definition SECONDS_PER_YEAR : N := 365 * 86400.
Definition ANNUAL_RATE_BPS : N := 500.

(** The four custom errors of the contract, followed by the reverts that
    come from the imported libraries and from checked arithmetic. *)
Inductive Error : Type :=
| InsufficientBalance (available required : N)
| InvalidAmount
| NothingStaked
| ZeroAddress
| EnforcedPause
| ExpectedPause
| Unauthorized (account : address)
| CustodyTransferFailed
| Panic.

Inductive Result (A : Type) : Type :=
| Ok (a : A)
| Err (e : Error).
Arguments Ok {A} a.
Arguments Err {A} e.

#[global] Instance Result_ret : MRet Result := fun A a => Ok a.
#[global] Instance Result_bind : MBind Result := fun A B f m =>
  match m with
  | Ok a => f a
  | Err e => Err e
  end.

Definition checked_add (a b : N) : Result N :=
  if a + b <=? MAX_UINT256 then Ok (a + b) else Err Panic.

Definition checked_sub (a b : N) : Result N :=
  if b <=? a then Ok (a - b) else Err Panic.

Definition checked_mul (a b : N) : Result N :=
  if a * b <=? MAX_UINT256 then Ok (a * b) else Err Panic.

Infix "+!" := checked_add (at level 50, left associativity).
Infix "-!" := checked_sub (at level 50, left associativity).
Infix "*!" := checked_mul (at level 40, left associativity).

(** ** Data model *)

Record Account : Type := mkAccount {
  deposited : N;
  staked : N;
  rewardsAccrued : N;
  lastUpdate : N;
  stakeStart : N;
  rewardRemainder : N
}.

(** A key that was never written reads as the all-zero record. *)
Definition zeroAccount : Account := mkAccount 0 0 0 0 0 0.

Definition set_deposited (v : N) (a : Account) : Account :=
  mkAccount v (staked a) (rewardsAccrued a) (lastUpdate a) (stakeStart a) (rewardRemainder a).
Definition set_staked (v : N) (a : Account) : Account :=
  mkAccount (deposited a) v (rewardsAccrued a) (lastUpdate a) (stakeStart a) (rewardRemainder a).
Definition set_rewardsAccrued (v : N) (a : Account) : Account :=
  mkAccount (deposited a) (staked a) v (lastUpdate a) (stakeStart a) (rewardRemainder a).
Definition set_lastUpdate (v : N) (a : Account) : Account :=
  mkAccount (deposited a) (staked a) (rewardsAccrued a) v (stakeStart a) (rewardRemainder a).
Definition set_stakeStart (v : N) (a : Account) : Account :=
  mkAccount (deposited a) (staked a) (rewardsAccrued a) (lastUpdate a) v (rewardRemainder a).
Definition set_rewardRemainder (v : N) (a : Account) : Account :=
  mkAccount (deposited a) (staked a) (rewardsAccrued a) (lastUpdate a) (stakeStart a) v.

(** The storage of the contract.  [admins] is the set of holders of
    [ADMIN_ROLE]. *)
Record State : Type := mkState {
  STAKING_TOKEN : address;
  rewardRate : N;
  accounts : gmap address Account;
  totalStaked : N;
  paused : bool;
  admins : gset address
}.

Definition account_of (s : State) (user : address) : Account :=
  default zeroAccount (accounts s !! user).

Definition set_account (user : address) (a : Account) (s : State) : State :=
  mkState (STAKING_TOKEN s) (rewardRate s) (<[user := a]> (accounts s))
          (totalStaked s) (paused s) (admins s).
Definition set_totalStaked (v : N) (s : State) : State :=
  mkState (STAKING_TOKEN s) (rewardRate s) (accounts s) v (paused s) (admins s).
Definition set_rewardRate (v : N) (s : State) : State :=
  mkState (STAKING_TOKEN s) v (accounts s) (totalStaked s) (paused s) (admins s).
Definition set_paused (v : bool) (s : State) : State :=
  mkState (STAKING_TOKEN s) (rewardRate s) (accounts s) (totalStaked s) v (admins s).

(** ** Events, custody transfers and the call environment *)

Inductive Event : Type :=
| Deposited (user : address) (amount : N)
| Deposit (user token : address) (amount : N)
| Staked (user : address) (amount : N)
| Stake (user : address) (amount : N)
| Withdrawn (user : address) (principal rewards : N)
| RewardRateUpdated (oldRate newRate : N)
| RewardsAccrued (user : address) (amount : N)
| Unstaked (user : address) (amount : N)
| Withdraw (user : address) (principal rewards : N)
| Paused (account : address)
| Unpaused (account : address).

(** [TransferFrom token from amount] pulls [amount] of [token] from [from]
    into the contract; [TransferTo token to amount] pushes it out. *)
Inductive Transfer : Type :=
| TransferFrom (token from : address) (amount : N)
| TransferTo (token to : address) (amount : N).

Inductive Effect : Type :=
| Emit (e : Event)
| Moved (t : Transfer).

(** What a call sees of the outside world: the caller, the block timestamp
    and the answer of the token contract to a transfer request. *)
Record Env : Type := mkEnv {
  msg_sender : address;
  block_timestamp : N;
  custody : Transfer -> bool
}.

(** Modelled from the spec: the SafeERC20 wrappers of OpenZeppelin are
    imported by the contract and are not among its sources.  Section 4.4:
    an inflow or outflow either moves the amount or fails
    [CustodyTransferFailed], and the enclosing operation fails with it. *)
Definition safeTransferFrom (env : Env) (token from : address) (amount : N)
  : Result (list Effect) :=
  if custody env (TransferFrom token from amount)
  then Ok [Moved (TransferFrom token from amount)]
  else Err CustodyTransferFailed.

(** Modelled from the spec: see [safeTransferFrom]. *)
Definition safeTransfer (env : Env) (token to : address) (amount : N)
  : Result (list Effect) :=
  if custody env (TransferTo token to amount)
  then Ok [Moved (TransferTo token to amount)]
  else Err CustodyTransferFailed.

(** Modelled from the spec: the modifier [whenNotPaused] of OpenZeppelin's
    Pausable is imported.  Section 4.5: a gated operation attempted while
    suspended fails [Paused] (the library's name is [EnforcedPause]). *)
Definition whenNotPaused {A : Type} (s : State) (body : Result A) : Result A :=
  if paused s then Err EnforcedPause else body.

(** Modelled from the spec: the modifier [onlyRole] of OpenZeppelin's
    AccessControl is imported.  Section 4.5: the three privileged
    operations require the admin capability, else [Unauthorized]. *)
Definition onlyRole {A : Type} (env : Env) (s : State) (body : Result A) : Result A :=
  if bool_decide (msg_sender env ∈ admins s) then body
  else Err (Unauthorized (msg_sender env)).

(** The guard of ReentrancyGuard only matters when the token calls back
    into the contract.  The custody answer of [Env] is a plain boolean, so
    no call is ever nested and the guard always lets the body run. *)
Definition nonReentrant {A : Type} (body : Result A) : Result A := body.

(** ** The accrual engine *)

Definition _updateRewards (rewardRate block_timestamp : N)
    (acct : Account) (user : address) : Result (Account * list Effect) :=
  if lastUpdate acct =? 0 then
    Ok (set_lastUpdate block_timestamp acct, [])
  else
    '(acct, evs) ←
      (if 0 <? staked acct then
         delta ← block_timestamp -! lastUpdate acct;
         if 0 <? delta then
           sr ← staked acct *! rewardRate;
           raw ← sr *! delta;
           totalScaled ← raw +! rewardRemainder acct;
           let rewards := totalScaled / SCALE in
           let acct := set_rewardRemainder (totalScaled mod SCALE) acct in
           if 0 <? rewards then
             ra ← rewardsAccrued acct +! rewards;
             Ok (set_rewardsAccrued ra acct, [Emit (RewardsAccrued user rewards)])
           else Ok (acct, [])
         else Ok (acct, [])
       else Ok (acct, []));
    Ok (set_lastUpdate block_timestamp acct, evs).

Definition pendingRewards (s : State) (block_timestamp : N) (user : address)
  : Result N :=
  let acct := account_of s user in
  if staked acct =? 0 then Ok (rewardsAccrued acct)
  else
    delta ← block_timestamp -! lastUpdate acct;
    sr ← staked acct *! rewardRate s;
    raw ← sr *! delta;
    totalScaled ← raw +! rewardRemainder acct;
    let newRewards := totalScaled / SCALE in
    rewardsAccrued acct +! newRewards.

Definition pendingRewardsDetailed (s : State) (block_timestamp : N)
    (user : address) : Result (N * N * N) :=
  let acct := account_of s user in
  if staked acct =? 0 then Ok (rewardsAccrued acct, 0, rewardRemainder acct)
  else
    delta ← block_timestamp -! lastUpdate acct;
    sr ← staked acct *! rewardRate s;
    raw ← sr *! delta;
    totalScaled ← raw +! rewardRemainder acct;
    let newRewards := totalScaled / SCALE in
    let rem := totalScaled mod SCALE in
    total ← rewardsAccrued acct +! newRewards;
    Ok (total, newRewards, rem).

Definition getAccount (s : State) (user : address) : Account :=
  account_of s user.

(** ** Operations

    The overloads of the source are told apart by their Solidity signature:
    [deposit(uint256)] is the principal deposit, [deposit(address,uint256)]
    the generic one, [withdraw(uint256,bool)] the principal withdrawal and
    [withdraw(uint256)] the annual-rate withdrawal.  A storage reference
    [Account storage acct] is the record read at [msg.sender], rebound at
    each field write and stored back when the call completes. *)

Definition constructor (_stakingToken : address) (_rewardRate : N)
    (admin : address) : Result State :=
  if _stakingToken =? 0 then Err ZeroAddress
  else Ok (mkState _stakingToken _rewardRate ∅ 0 false {[admin]}).

Definition deposit_uint256 (env : Env) (amount : N) (s : State)
  : Result (State * list Effect) :=
  whenNotPaused s (nonReentrant (
    if amount =? 0 then Err InvalidAmount else
    let acct := account_of s (msg_sender env) in
    '(acct, evs) ← _updateRewards (rewardRate s) (block_timestamp env) acct (msg_sender env);
    moved ← safeTransferFrom env (STAKING_TOKEN s) (msg_sender env) amount;
    d ← deposited acct +! amount;
    let acct := set_deposited d acct in
    Ok (set_account (msg_sender env) acct s,
        evs ++ moved ++ [Emit (Deposited (msg_sender env) amount)]))).

Definition deposit_address_uint256 (env : Env) (token : address) (amount : N)
    (s : State) : Result (State * list Effect) :=
  whenNotPaused s (nonReentrant (
    if amount =? 0 then Err InvalidAmount else
    if token =? 0 then Err ZeroAddress else
    moved ← safeTransferFrom env token (msg_sender env) amount;
    Ok (s, moved ++ [Emit (Deposit (msg_sender env) token amount)]))).

Definition stake (env : Env) (amount : N) (s : State)
  : Result (State * list Effect) :=
  whenNotPaused s (nonReentrant (
    if amount =? 0 then Err InvalidAmount else
    let acct := account_of s (msg_sender env) in
    idle ← deposited acct -! staked acct;
    if idle <? amount then Err (InsufficientBalance idle amount) else
    '(acct, evs) ← _updateRewards (rewardRate s) (block_timestamp env) acct (msg_sender env);
    let acct :=
      if staked acct =? 0 then set_stakeStart (block_timestamp env) acct else acct in
    st ← staked acct +! amount;
    let acct := set_staked st acct in
    ts ← totalStaked s +! amount;
    Ok (set_totalStaked ts (set_account (msg_sender env) acct s),
        evs ++ [Emit (Staked (msg_sender env) amount);
                Emit (Stake (msg_sender env) amount)]))).

Definition unstake (env : Env) (amount : N) (s : State)
  : Result (State * list Effect) :=
  whenNotPaused s (nonReentrant (
    if amount =? 0 then Err InvalidAmount else
    let acct := account_of s (msg_sender env) in
    if staked acct <? amount then Err (InsufficientBalance (staked acct) amount) else
    '(acct, evs) ← _updateRewards (rewardRate s) (block_timestamp env) acct (msg_sender env);
    st ← staked acct -! amount;
    let acct := set_staked st acct in
    ts ← totalStaked s -! amount;
    let acct := if staked acct =? 0 then set_stakeStart 0 acct else acct in
    Ok (set_totalStaked ts (set_account (msg_sender env) acct s),
        evs ++ [Emit (Unstaked (msg_sender env) amount)]))).

Definition withdraw_uint256_bool (env : Env) (amountPrincipal : N)
    (claimRewards : bool) (s : State) : Result (State * list Effect) :=
  nonReentrant (
    let acct := account_of s (msg_sender env) in
    idle ← deposited acct -! staked acct;
    if idle <? amountPrincipal then Err (InsufficientBalance idle amountPrincipal) else
    '(acct, evs) ← _updateRewards (rewardRate s) (block_timestamp env) acct (msg_sender env);
    let '(rewardsOut, acct) :=
      if claimRewards then (rewardsAccrued acct, set_rewardsAccrued 0 acct)
      else (0, acct) in
    acct ← (if 0 <? amountPrincipal then
              d ← deposited acct -! amountPrincipal;
              Ok (set_deposited d acct)
            else Ok acct);
    out ← amountPrincipal +! rewardsOut;
    moved ← safeTransfer env (STAKING_TOKEN s) (msg_sender env) out;
    Ok (set_account (msg_sender env) acct s,
        evs ++ moved ++ [Emit (Withdrawn (msg_sender env) amountPrincipal rewardsOut)])).

Definition withdraw_uint256 (env : Env) (amount : N) (s : State)
  : Result (State * list Effect) :=
  nonReentrant (
    let acct := account_of s (msg_sender env) in
    if amount =? 0 then Err InvalidAmount else
    if staked acct <? amount then Err (InsufficientBalance (staked acct) amount) else
    if staked acct =? 0 then Err NothingStaked else
    let start := stakeStart acct in
    let '(acct, start) :=
      if start =? 0 then (set_stakeStart (block_timestamp env) acct, block_timestamp env)
      else (acct, start) in
    duration ← block_timestamp env -! start;
    ab ← amount *! ANNUAL_RATE_BPS;
    num ← ab *! duration;
    let rewards := num / (SECONDS_PER_YEAR * 10000) in
    st ← staked acct -! amount;
    let acct := set_staked st acct in
    ts ← totalStaked s -! amount;
    d ← deposited acct -! amount;
    let acct := set_deposited d acct in
    let acct :=
      if 0 <? staked acct then set_stakeStart (block_timestamp env) acct
      else set_stakeStart 0 acct in
    out ← amount +! rewards;
    moved ← safeTransfer env (STAKING_TOKEN s) (msg_sender env) out;
    Ok (set_totalStaked ts (set_account (msg_sender env) acct s),
        moved ++ [Emit (Withdraw (msg_sender env) amount rewards)])).

Definition setRewardRate (env : Env) (newRate : N) (s : State)
  : Result (State * list Effect) :=
  onlyRole env s (
    let old := rewardRate s in
    Ok (set_rewardRate newRate s, [Emit (RewardRateUpdated old newRate)])).

(** Modelled from the spec: [_pause] and [_unpause] of OpenZeppelin's
    Pausable are imported.  Section 6: they toggle the suspended flag and
    record [Paused] or [Unpaused]; the library rejects a pause while
    suspended and a resume while running. *)
Definition _pause (env : Env) (s : State) : Result (State * list Effect) :=
  whenNotPaused s (Ok (set_paused true s, [Emit (Paused (msg_sender env))])).

(** Modelled from the spec: see [_pause]. *)
Definition _unpause (env : Env) (s : State) : Result (State * list Effect) :=
  if paused s then Ok (set_paused false s, [Emit (Unpaused (msg_sender env))])
  else Err ExpectedPause.

Definition pause (env : Env) (s : State) : Result (State * list Effect) :=
  onlyRole env s (_pause env s).

Definition unpause (env : Env) (s : State) : Result (State * list Effect) :=
  onlyRole env s (_unpause env s).

(** ** Transactions

    The external entry points, named as the specification names them.  The
    role management that the contract inherits from AccessControl only
    changes [admins], which no ledger field depends on, and is left out. *)
Inductive Call : Type :=
| depositPrincipal (amount : N)
| depositGeneric (asset : address) (amount : N)
| stakeCall (amount : N)
| unstakeCall (amount : N)
| withdrawPrincipal (principal : N) (claimRewards : bool)
| withdrawAnnual (amount : N)
| setRewardRateCall (newRate : N)
| pauseCall
| unpauseCall.

Definition execute (env : Env) (c : Call) (s : State)
  : Result (State * list Effect) :=
  match c with
  | depositPrincipal amount => deposit_uint256 env amount s
  | depositGeneric asset amount => deposit_address_uint256 env asset amount s
  | stakeCall amount => stake env amount s
  | unstakeCall amount => unstake env amount s
  | withdrawPrincipal principal claimRewards =>
      withdraw_uint256_bool env principal claimRewards s
  | withdrawAnnual amount => withdraw_uint256 env amount s
  | setRewardRateCall newRate => setRewardRate env newRate s
  | pauseCall => pause env s
  | unpauseCall => unpause env s
  end.

(** A transaction either completes, and its writes and effects persist, or
    reverts, and the storage is the one before the call. *)
Definition transact (env : Env) (c : Call) (s : State)
  : State * Result (list Effect) :=
  match execute env c s with
  | Ok (s', effects) => (s', Ok effects)
  | Err e => (s, Err e)
  end.

(** States the contract can be in: the one left by the constructor, and
    those left by any transaction, completed or reverted. *)
Inductive reachable : State -> Prop :=
| reachable_init token rate admin s :
    constructor token rate admin = Ok s -> reachable s
| reachable_step env c s :
    reachable s -> reachable (fst (transact env c s)).

(** The sum of [staked] over every account that was ever written. *)
Definition sum_staked (m : gmap address Account) : N :=
  map_fold (fun _ a acc => staked a + acc) 0 m.

(** The ledger invariants of section 3: the global sum, and per account
    the stake within the deposit, the accrued rewards within [uint256] and
    the carried remainder below [SCALE]. *)
Definition total_inv (s : State) : Prop :=
  totalStaked s = sum_staked (accounts s).

Definition account_inv (a : Account) : Prop :=
  staked a <= deposited a /\
  rewardsAccrued a <= MAX_UINT256 /\
  rewardRemainder a < SCALE.

Definition accounts_inv (s : State) : Prop :=
  forall user, account_inv (account_of s user).

(** Committing an account at each checkpoint of a list, in order, under one
    reward rate and with nothing else touching the account in between. *)
Fixpoint commit_each (rate : N) (user : address) (checkpoints : list N)
    (acct : Account) : Result Account :=
  match checkpoints with
  | [] => Ok acct
  | t :: rest =>
      '(acct', _) ← _updateRewards rate t acct user;
      commit_each rate user rest acct'
  end.

(** [ascending lo checkpoints hi]: the checkpoints cut [lo, hi] into
    consecutive sub-intervals (empty ones allowed). *)
Fixpoint ascending (lo : N) (checkpoints : list N) (hi : N) : Prop :=
  match checkpoints with
  | [] => lo <= hi
  | t :: rest => lo <= t /\ ascending t rest hi
  end.

(** The scaled numerator that a checkpoint at [now] divides by [SCALE]. *)
Definition totalScaled_at (rate now : N) (a : Account) : N :=
  staked a * rate * (now - lastUpdate a) + rewardRemainder a.

(** The record a checkpoint at [now] leaves when time has advanced. *)
Definition accrued_at (rate now : N) (a : Account) : Account :=
  mkAccount (deposited a) (staked a)
            (rewardsAccrued a + totalScaled_at rate now a / SCALE)
            now (stakeStart a)
            (totalScaled_at rate now a mod SCALE).

(** The move of a staked amount, of an account or of the total, that an
    operation makes when it completes. *)
Definition staked_delta (c : Call) (before after : N) : Prop :=
  match c with
  | stakeCall amount => after = before + amount
  | unstakeCall amount | withdrawAnnual amount =>
      amount <= before /\ after = before - amount
  | _ => after = before
  end.

(** Every account with a positive stake has been committed at least once. *)
Definition committed_inv (s : State) : Prop :=
  forall user,
    staked (account_of s user) = 0 \/ lastUpdate (account_of s user) ≠ 0.

(** ** Named parts of the annual-rate withdrawal

    [withdraw(uint256)] computes both inline; they are named here so that
    statements about the call can mention them. *)

(** The start of the staking cycle as the annual-rate withdrawal reads
    it: an unset [stakeStart] counts as now. *)
Definition cycle_start (now : N) (a : Account) : N :=
  if stakeStart a =? 0 then now else stakeStart a.

(** The reward of the annual-rate path for a given duration. *)
Definition annual_reward (amount duration : N) : N :=
  amount * ANNUAL_RATE_BPS * duration / (SECONDS_PER_YEAR * 10000).

(** Applies a change to the state of a completed call. *)
Definition map_state (f : State -> State) (r : Result (State * list Effect))
  : Result (State * list Effect) :=
  match r with
  | Ok (s, l) => Ok (f s, l)
  | Err e => Err e
  end.

Definition is_withdrawal (c : Call) : bool :=
  match c with
  | withdrawPrincipal _ _ | withdrawAnnual _ => true
  | _ => false
  end.

(** ** A concrete deployment for the worked scenarios

    Token 1, administrator 9, depositors 7 and 8; the reward rate is one
    unit per second per unit staked.  [env_of who now ok] is a call by
    [who] at time [now] in which every custody transfer answers [ok]. *)
Definition env_of (who : address) (now : N) (ok : bool) : Env :=
  mkEnv who now (fun _ => ok).

Definition genesis : State := mkState 1 SCALE ∅ 0 false {[9]}.

Definition t0 : N := 1700000000.

Definition after_deposit : State :=
  fst (transact (env_of 7 t0 true) (depositPrincipal 100) genesis).

Definition after_stake : State :=
  fst (transact (env_of 7 t0 true) (stakeCall 100) after_deposit).

(** The deployment suspended by its administrator after the stake. *)
Definition after_pause : State :=
  fst (transact (env_of 9 (t0 + 10) true) pauseCall after_stake).

(** The deployment with half of the deposit staked, after which the
    administrator raises the reward rate to 2^255 and suspends the
    contract. *)
Definition after_rate_raise : State :=
  fst (transact (env_of 9 (t0 + 10) true) pauseCall
    (fst (transact (env_of 9 (t0 + 5) true) (setRewardRateCall (2 ^ 255))
      (fst (transact (env_of 7 t0 true) (stakeCall 50) after_deposit))))).

(** ** Further invariants *)

(** States reached when every call carries a real block timestamp, which
    is never 0. *)
Inductive reachable_real : State -> Prop :=
| reachable_real_init token rate admin s :
    constructor token rate admin = Ok s -> reachable_real s
| reachable_real_step env c s :
    block_timestamp env ≠ 0 ->
    reachable_real s -> reachable_real (fst (transact env c s)).

(** Stored amounts stay within [uint256]. *)
Definition bounds_inv (s : State) : Prop :=
  totalStaked s <= MAX_UINT256 /\
  forall user, deposited (account_of s user) <= MAX_UINT256.

(** An account that stakes nothing has no cycle clock. *)
Definition cycle_inv (s : State) : Prop :=
  forall user,
    staked (account_of s user) = 0 -> stakeStart (account_of s user) = 0.

(** An account that stakes has a cycle clock. *)
Definition cycle_started_inv (s : State) : Prop :=
  forall user,
    staked (account_of s user) = 0 \/ stakeStart (account_of s user) ≠ 0.

(** ** Reading the effects of a call *)

(** The custody transfers among the effects, in order. *)
Fixpoint transfers (l : list Effect) : list Transfer :=
  match l with
  | [] => []
  | Moved t :: rest => t :: transfers rest
  | Emit _ :: rest => transfers rest
  end.


Definition sum_effects (f : Effect -> N) (l : list Effect) : N :=
  fold_right (fun e acc => f e + acc) 0 l.

(** What the events of a call report: principal credited and released,
    stake added and removed, rewards accrued and claimed. *)
Definition credited (e : Effect) : N :=
  match e with Emit (Deposited _ amount) => amount | _ => 0 end.
Definition released (e : Effect) : N :=
  match e with
  | Emit (Withdrawn _ principal _) | Emit (Withdraw _ principal _) => principal
  | _ => 0
  end.
Definition stake_added (e : Effect) : N :=
  match e with Emit (Staked _ amount) => amount | _ => 0 end.
Definition stake_removed (e : Effect) : N :=
  match e with
  | Emit (Unstaked _ amount) | Emit (Withdraw _ amount _) => amount
  | _ => 0
  end.
Definition accrued (e : Effect) : N :=
  match e with Emit (RewardsAccrued _ amount) => amount | _ => 0 end.
Definition claimed (e : Effect) : N :=
  match e with Emit (Withdrawn _ _ rewards) => rewards | _ => 0 end.

(** Tokens pushed out and pulled in, as transferred and as reported. *)
Definition paid (e : Effect) : N :=
  match e with Moved (TransferTo _ _ amount) => amount | _ => 0 end.
Definition paid_reported (e : Effect) : N :=
  match e with
  | Emit (Withdrawn _ principal rewards) | Emit (Withdraw _ principal rewards) =>
      principal + rewards
  | _ => 0
  end.
Definition pulled (e : Effect) : N :=
  match e with Moved (TransferFrom _ _ amount) => amount | _ => 0 end.
Definition pulled_reported (e : Effect) : N :=
  match e with
  | Emit (Deposited _ amount) | Emit (Deposit _ _ amount) => amount
  | _ => 0
  end.

(** ** The demo scripts: planning the amounts

    [scripts/quickDemo.ts] and the showcase script read the caller's record
    with [getAccount] and compute from it the amounts they send.  A
    JavaScript [bigint] is an integer [Z], and [bigint] division truncates
    towards zero ([Z.quot]).  A percentage comes from [parseInt] and goes
    through [BigInt], which throws on [NaN]; it is an integer here. *)
Definition pctOf (value pct : Z) : Z := Z.quot (value * pct) 100.

(** Step 2 of [quickDemo.ts]: the deposit still missing to the target. *)
Definition neededDeposit (targetDeposit alreadyDeposited : Z) : Z :=
  if (targetDeposit >? alreadyDeposited)%Z
  then (targetDeposit - alreadyDeposited)%Z else 0%Z.

(** Step 3 of [quickDemo.ts]: the stake still missing to the wanted share
    of the deposit, capped by what is idle. *)
Definition quickDemo_toStake (deposited staked stakePercent : Z) : Z :=
  let desiredStake := pctOf deposited stakePercent in
  let currentStake := staked in
  let availableToStake := (deposited - currentStake)%Z in
  let stakeDeficit :=
    if (desiredStake >? currentStake)%Z
    then (desiredStake - currentStake)%Z else 0%Z in
  if (stakeDeficit >? availableToStake)%Z then availableToStake else stakeDeficit.

(** Step 4 of the showcase script: the same without the cap. *)
Definition showcase_toStake (deposited staked stakePct : Z) : Z :=
  let desiredStake := pctOf deposited stakePct in
  if (desiredStake >? staked)%Z then (desiredStake - staked)%Z else 0%Z.

(** * Properties *)

(** Unfolds one layer of the error monad without touching arithmetic. *)
Ltac rstep :=
  cbn [mbind Result_bind mret Result_ret
       deposited staked rewardsAccrued lastUpdate stakeStart rewardRemainder
       set_deposited set_staked set_rewardsAccrued set_lastUpdate
       set_stakeStart set_rewardRemainder].
Ltac rstep_in H :=
  cbn [mbind Result_bind mret Result_ret
       deposited staked rewardsAccrued lastUpdate stakeStart rewardRemainder
       set_deposited set_staked set_rewardsAccrued set_lastUpdate
       set_stakeStart set_rewardRemainder] in H.

(** ** Arithmetic of the accrual step *)

Lemma SCALE_pos : 0 < SCALE.
Proof. reflexivity. Qed.

Lemma SCALE_neq_0 : SCALE ≠ 0.
Proof. discriminate. Qed.

Lemma set_lastUpdate_same (a : Account) : set_lastUpdate (lastUpdate a) a = a.
Proof. by destruct a. Qed.

Lemma updateRewards_idle rate now a user :
  lastUpdate a ≠ 0 -> staked a = 0 ->
  _updateRewards rate now a user = Ok (set_lastUpdate now a, []).
Proof.
  intros Hlu Hst. unfold _updateRewards.
  destruct (N.eqb_spec (lastUpdate a) 0) as [|_]; [done|].
  rewrite Hst. reflexivity.
Qed.

Lemma updateRewards_same_time rate a user :
  lastUpdate a ≠ 0 ->
  _updateRewards rate (lastUpdate a) a user = Ok (a, []).
Proof.
  intros Hlu. unfold _updateRewards, checked_sub.
  destruct (N.eqb_spec (lastUpdate a) 0) as [|_]; [done|].
  destruct (0 <? staked a); rstep.
  - rewrite N.leb_refl. rstep. rewrite N.sub_diag. change (0 <? 0) with false. rstep.
    by rewrite set_lastUpdate_same.
  - by rewrite set_lastUpdate_same.
Qed.

(** What a successful checkpoint over a non-empty interval computed. *)
Lemma updateRewards_inv rate now a user a' evs :
  lastUpdate a ≠ 0 -> 0 < staked a -> lastUpdate a < now ->
  _updateRewards rate now a user = Ok (a', evs) ->
  staked a * rate <= MAX_UINT256 /\
  staked a * rate * (now - lastUpdate a) <= MAX_UINT256 /\
  totalScaled_at rate now a <= MAX_UINT256 /\
  (totalScaled_at rate now a / SCALE = 0 \/
   rewardsAccrued a + totalScaled_at rate now a / SCALE <= MAX_UINT256) /\
  a' = accrued_at rate now a.
Proof.
  intros Hlu Hst Hnow. unfold _updateRewards, checked_sub, checked_mul, checked_add.
  destruct (N.eqb_spec (lastUpdate a) 0) as [|_]; [done|].
  destruct (N.ltb_spec 0 (staked a)) as [_|]; [|lia]. rstep.
  destruct (N.leb_spec (lastUpdate a) now) as [_|]; [|lia]. rstep.
  destruct (N.ltb_spec 0 (now - lastUpdate a)) as [_|]; [|lia].
  destruct (N.leb_spec (staked a * rate) MAX_UINT256) as [H1|]; [|rstep; done]. rstep.
  destruct (N.leb_spec (staked a * rate * (now - lastUpdate a)) MAX_UINT256)
    as [H2|]; [|rstep; done]. rstep.
  fold (totalScaled_at rate now a).
  destruct (N.leb_spec (totalScaled_at rate now a) MAX_UINT256) as [H3|]; [|rstep; done]. rstep.
  destruct (N.ltb_spec 0 (totalScaled_at rate now a / SCALE)) as [Hr|Hr]; rstep.
  - destruct (N.leb_spec (rewardsAccrued a + totalScaled_at rate now a / SCALE)
                         MAX_UINT256) as [H4|]; [|rstep; done]. rstep.
    intros [= <- <-]. repeat split; auto.
  - intros [= <- <-]. repeat split; auto; [left; by apply N.le_0_r|].
    apply N.le_0_r in Hr. unfold accrued_at. rewrite Hr, N.add_0_r. reflexivity.
Qed.

(** The converse: when nothing overflows the checkpoint succeeds. *)
Lemma updateRewards_ok rate now a user :
  lastUpdate a ≠ 0 -> 0 < staked a -> lastUpdate a < now ->
  staked a * rate <= MAX_UINT256 ->
  staked a * rate * (now - lastUpdate a) <= MAX_UINT256 ->
  totalScaled_at rate now a <= MAX_UINT256 ->
  (totalScaled_at rate now a / SCALE = 0 \/
   rewardsAccrued a + totalScaled_at rate now a / SCALE <= MAX_UINT256) ->
  exists evs, _updateRewards rate now a user = Ok (accrued_at rate now a, evs).
Proof.
  intros Hlu Hst Hnow H1 H2 H3 H4.
  unfold _updateRewards, checked_sub, checked_mul, checked_add.
  destruct (N.eqb_spec (lastUpdate a) 0) as [|_]; [done|].
  destruct (N.ltb_spec 0 (staked a)) as [_|]; [|lia]. rstep.
  destruct (N.leb_spec (lastUpdate a) now) as [_|]; [|lia]. rstep.
  destruct (N.ltb_spec 0 (now - lastUpdate a)) as [_|]; [|lia].
  destruct (N.leb_spec (staked a * rate) MAX_UINT256) as [_|]; [|lia]. rstep.
  destruct (N.leb_spec (staked a * rate * (now - lastUpdate a)) MAX_UINT256)
    as [_|]; [|lia]. rstep.
  fold (totalScaled_at rate now a).
  destruct (N.leb_spec (totalScaled_at rate now a) MAX_UINT256) as [_|]; [|lia]. rstep.
  destruct (N.ltb_spec 0 (totalScaled_at rate now a / SCALE)) as [Hr|Hr]; rstep.
  - destruct (N.leb_spec (rewardsAccrued a + totalScaled_at rate now a / SCALE)
                         MAX_UINT256) as [_|]; [|lia]. rstep.
    eexists. reflexivity.
  - eexists. apply N.le_0_r in Hr. unfold accrued_at.
    rewrite Hr, N.add_0_r. reflexivity.
Qed.

(** Carrying the remainder: dividing a sum in two steps loses nothing. *)
Lemma carry_div (T1 X : N) :
  (T1 + X) / SCALE = T1 / SCALE + (X + T1 mod SCALE) / SCALE.
Proof.
  rewrite (N.div_mod T1 SCALE) at 1 by apply SCALE_neq_0.
  replace (SCALE * (T1 / SCALE) + T1 mod SCALE + X)
    with (X + T1 mod SCALE + T1 / SCALE * SCALE) by lia.
  rewrite N.div_add by apply SCALE_neq_0. lia.
Qed.

Lemma carry_mod (T1 X : N) :
  (T1 + X) mod SCALE = (X + T1 mod SCALE) mod SCALE.
Proof.
  rewrite (N.div_mod T1 SCALE) at 1 by apply SCALE_neq_0.
  replace (SCALE * (T1 / SCALE) + T1 mod SCALE + X)
    with (X + T1 mod SCALE + T1 / SCALE * SCALE) by lia.
  apply N.Div0.mod_add.
Qed.

Lemma totalScaled_split rate (a : Account) (b c : N) :
  lastUpdate a <= b -> b <= c ->
  totalScaled_at rate c a =
  totalScaled_at rate b a + staked a * rate * (c - b).
Proof.
  intros Hab Hbc. unfold totalScaled_at.
  replace (c - lastUpdate a) with ((b - lastUpdate a) + (c - b)) by lia.
  rewrite N.mul_add_distr_l. lia.
Qed.

Lemma totalScaled_accrued rate (a : Account) (b c : N) :
  totalScaled_at rate c (accrued_at rate b a) =
  staked a * rate * (c - b) + totalScaled_at rate b a mod SCALE.
Proof. reflexivity. Qed.

(** Names every quotient and remainder by [SCALE] so that linear
    arithmetic sees them as atoms. *)
Ltac name_divmod :=
  repeat match goal with
  | H : context [?x / SCALE] |- _ =>
      let q := fresh "q" in set (q := x / SCALE) in *; clearbody q
  | |- context [?x / SCALE] =>
      let q := fresh "q" in set (q := x / SCALE) in *; clearbody q
  | H : context [?x mod SCALE] |- _ =>
      let r := fresh "r" in set (r := x mod SCALE) in *; clearbody r
  | |- context [?x mod SCALE] =>
      let r := fresh "r" in set (r := x mod SCALE) in *; clearbody r
  end.

(** One intermediate checkpoint [b] between the last one and [c]. *)
Lemma updateRewards_split rate user (a : Account) (b c : N) a1 evs :
  lastUpdate a ≠ 0 -> lastUpdate a <= b -> b <= c ->
  _updateRewards rate c a user = Ok (a1, evs) ->
  exists ab evsb evsc,
    _updateRewards rate b a user = Ok (ab, evsb) /\
    lastUpdate ab = b /\
    _updateRewards rate c ab user = Ok (a1, evsc).
Proof.
  intros Hlu Hab Hbc Hc.
  assert (Hb0 : b ≠ 0) by lia.
  destruct (N.eq_dec (staked a) 0) as [Hz|Hpos].
  - rewrite updateRewards_idle in Hc by done. injection Hc as <- <-.
    exists (set_lastUpdate b a), [], []. split; [by apply updateRewards_idle|].
    split; [done|]. by rewrite updateRewards_idle.
  - assert (Hst : 0 < staked a) by lia.
    destruct (N.eq_dec b (lastUpdate a)) as [->|Hne].
    { exists a, [], evs. by rewrite updateRewards_same_time. }
    assert (Hltb : lastUpdate a < b) by lia.
    assert (Hltc : lastUpdate a < c) by lia.
    destruct (updateRewards_inv _ _ _ _ _ _ Hlu Hst Hltc Hc)
      as (H1 & H2 & H3 & H4 & ->).
    pose proof (totalScaled_split rate a b c Hab Hbc) as Hsplit.
    pose proof (carry_div (totalScaled_at rate b a) (staked a * rate * (c - b)))
      as Hdiv.
    pose proof (carry_mod (totalScaled_at rate b a) (staked a * rate * (c - b)))
      as Hmod.
    rewrite <- Hsplit in Hdiv, Hmod.
    rewrite <- totalScaled_accrued in Hdiv, Hmod.
    assert (Hle : staked a * rate * (b - lastUpdate a)
                  <= staked a * rate * (c - lastUpdate a))
      by (apply N.mul_le_mono_l; lia).
    destruct (updateRewards_ok rate b a user) as [evsb Hb]; try done.
    { lia. }
    { unfold totalScaled_at in *. lia. }
    { clear Hc. name_divmod. lia. }
    exists (accrued_at rate b a), evsb. rewrite Hb.
    destruct (N.eq_dec c b) as [->|Hcb].
    { exists []. split; [done|]. split; [done|].
      by apply (updateRewards_same_time rate (accrued_at rate b a) user). }
    assert (Hrem : totalScaled_at rate b a mod SCALE
                   <= totalScaled_at rate b a) by apply N.Div0.mod_le.
    destruct (updateRewards_ok rate c (accrued_at rate b a) user)
      as [evsc Hc']; try done; try (cbn; lia).
    { rewrite totalScaled_accrued. lia. }
    { clear Hc Hb. cbn [rewardsAccrued accrued_at]. name_divmod. lia. }
    exists evsc. split; [done|]. split; [done|].
    rewrite Hc'. do 2 f_equal. unfold accrued_at at 1. cbn [deposited staked
      rewardsAccrued lastUpdate stakeStart rewardRemainder accrued_at].
    unfold accrued_at. f_equal; [|done].
    { change (totalScaled_at rate c
               {| deposited := deposited a; staked := staked a;
                  rewardsAccrued := rewardsAccrued a + totalScaled_at rate b a `div` SCALE;
                  lastUpdate := b; stakeStart := stakeStart a;
                  rewardRemainder := totalScaled_at rate b a `mod` SCALE |})
        with (totalScaled_at rate c (accrued_at rate b a)).
      clear Hc Hb Hc'. name_divmod. lia. }
Qed.

(** Checkpoints of an account with nothing staked only move [lastUpdate]. *)
Lemma updateRewards_unstaked rate now a user :
  staked a = 0 ->
  _updateRewards rate now a user = Ok (set_lastUpdate now a, []).
Proof.
  intros Hst. unfold _updateRewards. rewrite Hst.
  destruct (lastUpdate a =? 0); reflexivity.
Qed.

Lemma commit_each_unstaked rate user (checkpoints : list N) (c : N) a :
  staked a = 0 ->
  commit_each rate user (checkpoints ++ [c]) a = Ok (set_lastUpdate c a).
Proof.
  revert a. induction checkpoints as [|b rest IH]; intros a Hst;
    cbn [app commit_each]; rewrite updateRewards_unstaked by done; rstep.
  - reflexivity.
  - by rewrite IH.
Qed.

Lemma ascending_le lo (checkpoints : list N) hi :
  ascending lo checkpoints hi -> lo <= hi.
Proof.
  revert lo. induction checkpoints as [|x rest IH]; intros lo H.
  - exact H.
  - destruct H as [H1 H2]. apply IH in H2. lia.
Qed.

Lemma commit_each_staked rate user (checkpoints : list N) (c : N) a a1 evs :
  lastUpdate a ≠ 0 ->
  ascending (lastUpdate a) checkpoints c ->
  _updateRewards rate c a user = Ok (a1, evs) ->
  commit_each rate user (checkpoints ++ [c]) a = Ok a1.
Proof.
  revert a evs. induction checkpoints as [|b rest IH]; intros a evs Hlu Hasc Hc.
  - cbn [app commit_each]. rewrite Hc. reflexivity.
  - destruct Hasc as [Hab Hrest].
    pose proof (ascending_le _ _ _ Hrest) as Hbc.
    destruct (updateRewards_split rate user a b c a1 evs Hlu Hab Hbc Hc)
      as (ab & evsb & evsc & Hb & Hlub & Hc').
    cbn [app commit_each]. rewrite Hb. rstep.
    apply (IH ab evsc); [lia | by rewrite Hlub | done].
Qed.

(** C1. Splitting invariance of accrual.  Take any reward rate and any
    account that either stakes nothing or has been committed before (a
    staked account always has: [stake] commits first), and any list of
    checkpoints that cuts the interval from its last checkpoint to [c] into
    sub-intervals.  If one commit over the whole interval yields [acct1],
    then committing at each checkpoint and finally at [c] yields the very
    same record: the same [rewardsAccrued], the same [rewardRemainder]
    (and the same [lastUpdate]). *)
Theorem splitting_invariance rate user (acct : Account)
    (checkpoints : list N) (c : N) acct1 evs :
  staked acct = 0 \/ lastUpdate acct ≠ 0 ->
  ascending (lastUpdate acct) checkpoints c ->
  _updateRewards rate c acct user = Ok (acct1, evs) ->
  commit_each rate user (checkpoints ++ [c]) acct = Ok acct1.
Proof.
  intros [Hst|Hlu] Hasc Hc.
  - rewrite updateRewards_unstaked in Hc by done. injection Hc as <- _.
    by apply commit_each_unstaked.
  - by apply (commit_each_staked rate user checkpoints c acct acct1 evs).
Qed.

Lemma splitting_invariance_witness :
  commit_each 333333333333333333 7 ([1003; 1007] ++ [1010])
              (mkAccount 100 10 0 1000 1000 0)
  = Ok (mkAccount 100 10 33 1010 1000 333333333333333300).
Proof.
  apply (splitting_invariance 333333333333333333 7
           (mkAccount 100 10 0 1000 1000 0) [1003; 1007] 1010 _
           [Emit (RewardsAccrued 7 33)]).
  - right. discriminate.
  - cbn. lia.
  - vm_compute. reflexivity.
Defined.

(** ** What a checkpoint leaves alone *)

Lemma bind_Ok {A B : Type} (m : Result A) (f : A -> Result B) (b : B) :
  m ≫= f = Ok b -> exists a, m = Ok a /\ f a = Ok b.
Proof. destruct m as [a|e]; [eauto | discriminate]. Qed.

Lemma updateRewards_frame rate now a user a' evs :
  _updateRewards rate now a user = Ok (a', evs) ->
  deposited a' = deposited a /\ staked a' = staked a /\
  stakeStart a' = stakeStart a /\ lastUpdate a' = now /\
  (rewardsAccrued a' = rewardsAccrued a \/ rewardsAccrued a' <= MAX_UINT256) /\
  (rewardRemainder a' = rewardRemainder a \/ rewardRemainder a' < SCALE).
Proof.
  unfold _updateRewards.
  destruct (lastUpdate a =? 0).
  { intros [= <- <-]. rstep. repeat split; auto. }
  intros H. apply bind_Ok in H as ([a0 evs0] & H & [= <- <-]).
  cut (deposited a0 = deposited a /\ staked a0 = staked a /\
       stakeStart a0 = stakeStart a /\
       (rewardsAccrued a0 = rewardsAccrued a \/ rewardsAccrued a0 <= MAX_UINT256) /\
       (rewardRemainder a0 = rewardRemainder a \/ rewardRemainder a0 < SCALE)).
  { rstep. tauto. }
  destruct (0 <? staked a); [|injection H as <- <-; repeat split; auto].
  apply bind_Ok in H as (delta & _ & H).
  destruct (0 <? delta); [|injection H as <- <-; repeat split; auto].
  apply bind_Ok in H as (sr & _ & H).
  apply bind_Ok in H as (raw & _ & H).
  apply bind_Ok in H as (totalScaled & _ & H).
  assert (Hrem : totalScaled mod SCALE < SCALE)
    by (apply N.mod_lt, SCALE_neq_0).
  destruct (0 <? totalScaled / SCALE).
  - apply bind_Ok in H as (ra & Hra & [= <- <-]).
    revert Hra. unfold checked_add. rstep.
    destruct (N.leb_spec (rewardsAccrued a + totalScaled / SCALE) MAX_UINT256);
      [|discriminate].
    intros [= <-]. rstep. repeat split; auto.
  - injection H as <- <-. rstep. repeat split; auto.
Qed.

(** ** The sum of stakes under a single write *)

Lemma sum_staked_empty : sum_staked ∅ = 0.
Proof. apply map_fold_empty. Qed.

Lemma sum_staked_insert_fresh (m : gmap address Account) k a :
  m !! k = None -> sum_staked (<[k := a]> m) = staked a + sum_staked m.
Proof.
  intros Hk. unfold sum_staked.
  apply (map_fold_insert_L (fun _ a acc => staked a + acc)); [|done].
  intros. lia.
Qed.

Lemma sum_staked_insert (m : gmap address Account) k a :
  sum_staked (<[k := a]> m) + staked (default zeroAccount (m !! k))
  = sum_staked m + staked a.
Proof.
  destruct (m !! k) as [old|] eqn:Hk; cbn [default].
  - rewrite <- (insert_delete_eq m k a).
    rewrite <- (insert_delete_id m k old Hk) at 2.
    rewrite !sum_staked_insert_fresh by apply lookup_delete_eq.
    unfold id. lia.
  - rewrite sum_staked_insert_fresh by done. cbn. lia.
Qed.

Lemma account_of_set_account s user a v :
  account_of (set_account user a s) v =
  if decide (user = v) then a else account_of s v.
Proof.
  unfold account_of, set_account. cbn [accounts].
  rewrite lookup_insert. by case_decide.
Qed.

Lemma account_of_set_totalStaked v s user :
  account_of (set_totalStaked v s) user = account_of s user.
Proof. reflexivity. Qed.

Lemma account_of_set_rewardRate v s user :
  account_of (set_rewardRate v s) user = account_of s user.
Proof. reflexivity. Qed.

Lemma account_of_set_paused v s user :
  account_of (set_paused v s) user = account_of s user.
Proof. reflexivity. Qed.

(** ** Inverting a completed operation *)

(** Turns the boolean tests met along a successful path into facts. *)
Ltac nbool :=
  repeat match goal with
  | H : (_ <=? _) = true |- _ => apply N.leb_le in H
  | H : (_ <=? _) = false |- _ => apply N.leb_gt in H
  | H : (_ <? _) = true |- _ => apply N.ltb_lt in H
  | H : (_ <? _) = false |- _ => apply N.ltb_ge in H
  | H : (_ =? _) = true |- _ => apply N.eqb_eq in H
  | H : (_ =? _) = false |- _ => apply N.eqb_neq in H
  end.

(** Follows the one path of an operation on which [H] can hold. *)
Ltac follow H :=
  repeat (rstep_in H;
    first
      [ discriminate H
      | match type of H with
        | (if ?b then _ else _) = _ => destruct b eqn:?
        | mbind _ (if ?b then _ else _) = _ => destruct b eqn:?
        | mbind _ (mbind _ (if ?b then _ else _)) = _ => destruct b eqn:?
        | mbind _ ?m = _ => destruct m as [?|?] eqn:?
        | (let '(_, _) := (if ?b then _ else _) in _) = _ => destruct b eqn:?
        | (let '(_, _) := ?x in _) = _ => destruct x as [? ?] eqn:?
        end ]);
  rstep_in H.

Ltac open_ops H :=
  unfold execute, deposit_uint256, deposit_address_uint256, stake, unstake,
    withdraw_uint256_bool, withdraw_uint256, setRewardRate, pause, unpause,
    _pause, _unpause, whenNotPaused, nonReentrant, onlyRole,
    safeTransfer, safeTransferFrom, checked_add, checked_sub, checked_mul in H.

(** A completed operation writes at most the caller's record.  The total
    moves with the caller's stake, and the record written satisfies the
    account invariant whenever the one read did. *)
Lemma execute_shape env c s s' l :
  execute env c s = Ok (s', l) ->
  (accounts s' = accounts s /\ totalStaked s' = totalStaked s) \/
  (exists a',
     accounts s' = <[msg_sender env := a']> (accounts s) /\
     totalStaked s' + staked (account_of s (msg_sender env))
       = totalStaked s + staked a' /\
     (account_inv (account_of s (msg_sender env)) -> account_inv a')).
Proof.
  intros H. destruct c; open_ops H; follow H;
    injection H as <- <-;
    repeat match goal with
    | Hu : _updateRewards _ _ _ _ = Ok _ |- _ =>
        apply updateRewards_frame in Hu;
        destruct Hu as (? & ? & ? & ? & ? & ?)
    end;
    repeat case_match; nbool;
    first [ left; split; reflexivity
          | right; eexists; split; [reflexivity|];
            unfold account_inv;
            cbn [totalStaked set_totalStaked set_account
                 deposited staked rewardsAccrued rewardRemainder
                 set_staked set_deposited set_stakeStart set_rewardsAccrued];
            split; [lia | intros (? & ? & ?); repeat split; lia] ].
Qed.

(** How each completed operation moves [totalStaked] and the caller's
    [staked], and that it moves nobody else's. *)
Lemma execute_staked_delta env c s s' l :
  execute env c s = Ok (s', l) ->
  staked_delta c (totalStaked s) (totalStaked s') /\
  staked_delta c (staked (account_of s (msg_sender env)))
                 (staked (account_of s' (msg_sender env))) /\
  (forall user, user ≠ msg_sender env ->
     staked (account_of s' user) = staked (account_of s user)).
Proof.
  intros H. destruct c; open_ops H; follow H;
    injection H as <- <-;
    repeat match goal with
    | Hu : _updateRewards _ _ _ _ = Ok _ |- _ =>
        apply updateRewards_frame in Hu;
        destruct Hu as (? & ? & ? & ? & ? & ?)
    end;
    unfold staked_delta;
    rewrite ?account_of_set_totalStaked, ?account_of_set_rewardRate,
      ?account_of_set_paused, ?account_of_set_account;
    cbn [totalStaked set_totalStaked set_account set_rewardRate set_paused];
    (split; [|split]);
    try (intros user Hne;
         rewrite ?account_of_set_totalStaked, ?account_of_set_rewardRate,
           ?account_of_set_paused, ?account_of_set_account);
    repeat case_decide; repeat case_match; rstep; nbool;
    first [reflexivity | congruence | lia].
Qed.

Lemma transact_cases env c s :
  (exists s' l, execute env c s = Ok (s', l) /\ transact env c s = (s', Ok l)) \/
  (exists e, execute env c s = Err e /\ transact env c s = (s, Err e)).
Proof.
  unfold transact. destruct (execute env c s) as [[s' l]|e]; eauto.
Qed.

Lemma total_inv_init token rate admin s :
  constructor token rate admin = Ok s -> total_inv s.
Proof.
  unfold constructor. destruct (token =? 0); [discriminate|].
  intros [= <-]. unfold total_inv. cbn [totalStaked accounts].
  by rewrite sum_staked_empty.
Qed.

Lemma total_inv_step env c s :
  total_inv s -> total_inv (fst (transact env c s)).
Proof.
  intros Hinv.
  destruct (transact_cases env c s) as [(s' & l & Hex & ->)|(e & _ & ->)];
    [|exact Hinv].
  cbn [fst]. unfold total_inv in *.
  destruct (execute_shape _ _ _ _ _ Hex) as [[-> ->]|(a' & -> & Htot & _)];
    [exact Hinv|].
  pose proof (sum_staked_insert (accounts s) (msg_sender env) a') as Hsum.
  unfold account_of in Htot. lia.
Qed.

Lemma accounts_inv_init token rate admin s :
  constructor token rate admin = Ok s -> accounts_inv s.
Proof.
  unfold constructor. destruct (token =? 0); [discriminate|].
  intros [= <-] user. unfold account_of. cbn [accounts].
  rewrite lookup_empty. repeat split; cbn; lia.
Qed.

Lemma accounts_inv_step env c s :
  accounts_inv s -> accounts_inv (fst (transact env c s)).
Proof.
  intros Hinv.
  destruct (transact_cases env c s) as [(s' & l & Hex & ->)|(e & _ & ->)];
    [|exact Hinv].
  cbn [fst]. intros user. specialize (Hinv user) as Hu.
  destruct (execute_shape _ _ _ _ _ Hex) as [[Hacc _]|(a' & Hacc & _ & Hok)];
    unfold account_of in *; rewrite Hacc; [exact Hu|].
  rewrite lookup_insert. case_decide as Heq; [|exact Hu].
  cbn [default from_option id]. subst user. apply Hok, Hinv.
Qed.

Lemma reachable_total_inv s : reachable s -> total_inv s.
Proof.
  induction 1 as [token rate admin s Hinit | env c s _ IH].
  - exact (total_inv_init _ _ _ _ Hinit).
  - exact (total_inv_step env c s IH).
Qed.

Lemma reachable_accounts_inv s : reachable s -> accounts_inv s.
Proof.
  induction 1 as [token rate admin s Hinit | env c s _ IH].
  - exact (accounts_inv_init _ _ _ _ Hinit).
  - exact (accounts_inv_step env c s IH).
Qed.

(** No single stake exceeds the recorded total. *)
Lemma staked_le_total s user :
  total_inv s -> staked (account_of s user) <= totalStaked s.
Proof.
  unfold total_inv, account_of. intros ->.
  destruct (accounts s !! user) as [a|] eqn:Hk; cbn [default from_option id].
  - rewrite <- (insert_delete_id (accounts s) user a Hk).
    rewrite sum_staked_insert_fresh by apply lookup_delete_eq. lia.
  - cbn. lia.
Qed.

(** C3. Global sum invariant.  In every state the contract can be in, that
    is after the constructor and after every operation, [totalStaked]
    equals the sum of the [staked] field over all accounts.  A completed
    [stake] adds the amount to the total and to the caller's stake, a
    completed [unstake] or annual-rate withdrawal subtracts it from both,
    and no other operation changes either; no operation changes the stake
    of an account other than the caller's. *)
Theorem totalStaked_is_sum_of_staked (s : State) :
  reachable s ->
  totalStaked s = sum_staked (accounts s) /\
  forall env c s' l,
    execute env c s = Ok (s', l) ->
    staked_delta c (totalStaked s) (totalStaked s') /\
    staked_delta c (staked (account_of s (msg_sender env)))
                   (staked (account_of s' (msg_sender env))) /\
    (forall user, user ≠ msg_sender env ->
       staked (account_of s' user) = staked (account_of s user)).
Proof.
  intros Hreach. split.
  - exact (reachable_total_inv s Hreach).
  - intros env c s' l. apply execute_staked_delta.
Qed.

(** C6. Remainder bound invariant.  In every state the contract can be in
    and for every account, [rewardRemainder] is below [SCALE] = 10^18
    (and, being an unsigned integer, at least 0). *)
Theorem rewardRemainder_below_SCALE (s : State) (user : address) :
  reachable s ->
  0 <= rewardRemainder (account_of s user) < SCALE /\ SCALE = 10 ^ 18.
Proof.
  intros Hreach. split; [|reflexivity]. split; [apply N.le_0_l|].
  apply (reachable_accounts_inv s Hreach user).
Qed.

(** With real block timestamps, which are never 0, an account that stakes
    has been committed: the hypothesis of the splitting theorem holds of
    every account the contract can hold. *)
Lemma committed_step env c s :
  block_timestamp env ≠ 0 ->
  committed_inv s -> committed_inv (fst (transact env c s)).
Proof.
  intros Hnow Hinv.
  destruct (transact_cases env c s) as [(s' & l & Hex & ->)|(e & _ & ->)];
    [|exact Hinv].
  cbn [fst]. intros user.
  specialize (Hinv (msg_sender env)) as Hme. specialize (Hinv user) as Hu.
  revert Hu.
  destruct c; open_ops Hex; follow Hex; injection Hex as <- <-;
    repeat match goal with
    | Hup : _updateRewards _ _ _ _ = Ok _ |- _ =>
        apply updateRewards_frame in Hup;
        destruct Hup as (? & ? & ? & ? & ? & ?)
    end;
    rewrite ?account_of_set_totalStaked, ?account_of_set_rewardRate,
      ?account_of_set_paused, ?account_of_set_account;
    try done;
    case_decide; try done;
    intros _;
    repeat case_match; rstep; nbool;
    first [ right; lia | destruct Hme as [Hme|Hme]; [left|right]; lia ].
Qed.

Lemma committed_init token rate admin s :
  constructor token rate admin = Ok s -> committed_inv s.
Proof.
  unfold constructor. destruct (token =? 0); [discriminate|].
  intros [= <-] user. left. unfold account_of. cbn [accounts].
  by rewrite lookup_empty.
Qed.

(** ** The concrete deployment *)

Example after_stake_account :
  account_of after_stake 7 = mkAccount 100 100 0 t0 t0 0
  /\ totalStaked after_stake = 100.
Proof. vm_compute. split; reflexivity. Qed.

Lemma MAX_UINT256_large : 2 ^ 128 <= MAX_UINT256.
Proof. apply N.leb_le. vm_compute. reflexivity. Qed.

(** ** The annual-rate withdrawal *)

(** C5. Error taxonomy of the annual-rate withdrawal, as the code has it.
    A zero amount fails [InvalidAmount].  A non-zero amount above the
    caller's stake fails [InsufficientBalance (staked, amount)]; this
    includes every caller with nothing staked, who gets
    [InsufficientBalance (0, amount)] and not [NothingStaked]: the stake is
    compared with the amount before it is compared with zero, so
    [NothingStaked] is never returned. *)
Theorem withdrawAnnual_error_order env (amount : N) (s : State) :
  (amount = 0 ->
   execute env (withdrawAnnual amount) s = Err InvalidAmount) /\
  (amount ≠ 0 -> staked (account_of s (msg_sender env)) = 0 ->
   execute env (withdrawAnnual amount) s = Err (InsufficientBalance 0 amount)) /\
  (amount ≠ 0 -> staked (account_of s (msg_sender env)) < amount ->
   execute env (withdrawAnnual amount) s
   = Err (InsufficientBalance (staked (account_of s (msg_sender env))) amount)) /\
  execute env (withdrawAnnual amount) s ≠ Err NothingStaked.
Proof.
  cbn [execute]. unfold withdraw_uint256, nonReentrant.
  repeat split.
  - intros ->. reflexivity.
  - intros Hne Hz. rewrite Hz.
    destruct (N.eqb_spec amount 0) as [|_]; [done|].
    destruct (N.ltb_spec 0 amount) as [_|]; [reflexivity|lia].
  - intros Hne Hlt.
    destruct (N.eqb_spec amount 0) as [|_]; [done|].
    destruct (N.ltb_spec (staked (account_of s (msg_sender env))) amount)
      as [_|]; [reflexivity|lia].
  - intros H.
    destruct (N.eqb_spec amount 0) as [|Hne]; [discriminate|].
    destruct (N.ltb_spec (staked (account_of s (msg_sender env))) amount)
      as [|Hge]; [discriminate|].
    destruct (N.eqb_spec (staked (account_of s (msg_sender env))) 0)
      as [Hz|_]; [lia|].
    unfold safeTransfer, checked_add, checked_sub, checked_mul in H.
    follow H.
Qed.

Lemma withdrawAnnual_error_order_witness :
  execute (env_of 7 t0 true) (withdrawAnnual 1) genesis
  = Err (InsufficientBalance 0 1).
Proof.
  apply (proj1 (proj2 (withdrawAnnual_error_order (env_of 7 t0 true) 1 genesis))).
  - discriminate.
  - reflexivity.
Defined.

(** Decides the next test on the path of a call from the context. *)
Ltac run_tests :=
  repeat (rstep;
    match goal with
    | |- context [if ?x <=? ?y then _ else _] =>
        destruct (N.leb_spec x y); [|exfalso; lia]
    | |- context [if ?x <=? ?y then _ else _] =>
        destruct (N.leb_spec x y); [exfalso; lia|]
    | |- context [if ?x <? ?y then _ else _] =>
        destruct (N.ltb_spec x y); [|exfalso; lia]
    | |- context [if ?x <? ?y then _ else _] =>
        destruct (N.ltb_spec x y); [exfalso; lia|]
    | |- context [if ?x =? ?y then _ else _] =>
        destruct (N.eqb_spec x y); [|exfalso; lia]
    | |- context [if ?x =? ?y then _ else _] =>
        destruct (N.eqb_spec x y); [exfalso; lia|]
    end);
  rstep.

(** The annual-rate withdrawal completes when the amount is non-zero and
    within the stake, the ledger invariants hold, the clock has not gone
    back, the arithmetic fits in [uint256] and the custody pays out. *)
Lemma withdraw_uint256_ok env amount s :
  let a := account_of s (msg_sender env) in
  let now := block_timestamp env in
  let rewards := annual_reward amount (now - cycle_start now a) in
  amount ≠ 0 -> amount <= staked a ->
  staked a <= deposited a -> staked a <= totalStaked s ->
  stakeStart a <= now ->
  amount * ANNUAL_RATE_BPS <= MAX_UINT256 ->
  amount * ANNUAL_RATE_BPS * (now - cycle_start now a) <= MAX_UINT256 ->
  amount + rewards <= MAX_UINT256 ->
  custody env (TransferTo (STAKING_TOKEN s) (msg_sender env) (amount + rewards))
    = true ->
  execute env (withdrawAnnual amount) s
  = Ok (set_totalStaked (totalStaked s - amount)
          (set_account (msg_sender env)
             (mkAccount (deposited a - amount) (staked a - amount)
                (rewardsAccrued a) (lastUpdate a)
                (if 0 <? staked a - amount then now else 0)
                (rewardRemainder a)) s),
        [Moved (TransferTo (STAKING_TOKEN s) (msg_sender env) (amount + rewards));
         Emit (Withdraw (msg_sender env) amount rewards)]).
Proof.
  intros a now rewards Hne Hle Hdep Htot Hstart Hm1 Hm2 Hsum Hcust.
  subst rewards. unfold annual_reward, cycle_start in *.
  cbn [execute]. unfold withdraw_uint256, nonReentrant, safeTransfer,
    checked_add, checked_sub, checked_mul.
  fold a now.
  destruct (N.eqb_spec (stakeStart a) 0) as [Hs0|Hs0]; run_tests;
    rewrite Hcust; rstep;
    (destruct (N.ltb_spec 0 (staked a - amount)); reflexivity).
Qed.

(** What a completed [stake] of a caller with nothing staked leaves. *)
Lemma stake_first_inv env amount s s' l :
  staked (account_of s (msg_sender env)) = 0 ->
  execute env (stakeCall amount) s = Ok (s', l) ->
  exists a,
    account_of s' (msg_sender env) = a /\
    STAKING_TOKEN s' = STAKING_TOKEN s /\
    staked a = amount /\
    stakeStart a = block_timestamp env /\
    amount <= deposited a /\
    totalStaked s' = totalStaked s + amount.
Proof.
  intros Hz H. open_ops H. follow H. injection H as <- <-.
  match goal with
  | Hu : _updateRewards _ _ _ _ = Ok _ |- _ =>
      apply updateRewards_frame in Hu; destruct Hu as (Hd & Hs & _)
  end.
  unfold account_of at 1. cbn [accounts set_totalStaked set_account].
  rewrite lookup_insert_eq. cbn [default from_option id].
  eexists. split; [reflexivity|]. nbool.
  rewrite Hs, Hz in *. change (0 =? 0) with true. rstep.
  repeat split; lia.
Qed.

(** C7. Scenario E, with the value the code computes.  An account with
    nothing staked stakes 100 at time t0, which sets [stakeStart] to t0,
    and calls the annual-rate withdrawal for 50 at t0 + 2,592,000 seconds.
    The reward is 50 * 500 * 2592000 / (31536000 * 10000) with truncating
    division, which is 0, and the payout is 50 plus that reward. *)
Theorem scenario_E_annual_withdrawal env1 env2 (s0 s1 : State) l1 :
  reachable s0 ->
  staked (account_of s0 (msg_sender env1)) = 0 ->
  execute env1 (stakeCall 100) s0 = Ok (s1, l1) ->
  msg_sender env2 = msg_sender env1 ->
  block_timestamp env2 = block_timestamp env1 + 2592000 ->
  custody env2 (TransferTo (STAKING_TOKEN s1) (msg_sender env2) 50) = true ->
  stakeStart (account_of s1 (msg_sender env1)) = block_timestamp env1 /\
  50 * 500 * 2592000 / (31536000 * 10000) = 0 /\
  snd (transact env2 (withdrawAnnual 50) s1)
  = Ok [Moved (TransferTo (STAKING_TOKEN s1) (msg_sender env2)
                 (50 + 50 * 500 * 2592000 / (31536000 * 10000)));
        Emit (Withdraw (msg_sender env2) 50
                (50 * 500 * 2592000 / (31536000 * 10000)))].
Proof.
  intros Hreach Hz Hstake Hsender Hnow Hcust.
  destruct (stake_first_inv _ _ _ _ _ Hz Hstake)
    as (a & Ha & Htok & Hst & Hss & Hdep & Hts).
  pose proof MAX_UINT256_large as Hmax.
  assert (Hbig : 2 ^ 128 = 340282366920938463463374607431768211456)
    by reflexivity.
  split; [by rewrite Ha|]. split; [reflexivity|].
  rewrite <- Hsender in Ha.
  assert (Hdur : block_timestamp env2 - cycle_start (block_timestamp env2) a
                 <= 2592000).
  { unfold cycle_start. destruct (stakeStart a =? 0); lia. }
  assert (Hrew : annual_reward 50
                   (block_timestamp env2 - cycle_start (block_timestamp env2) a)
                 = 0).
  { unfold annual_reward. apply N.div_small.
    change (SECONDS_PER_YEAR * 10000) with 315360000000.
    change (50 * ANNUAL_RATE_BPS) with 25000. lia. }
  change (50 * 500 * 2592000 / (31536000 * 10000)) with 0.
  unfold transact.
  rewrite withdraw_uint256_ok; rewrite ?Ha, ?Hrew; try done;
    change (50 * ANNUAL_RATE_BPS) with 25000; try lia.
Qed.

Lemma scenario_E_annual_withdrawal_witness :
  stakeStart (account_of after_stake 7) = t0 /\
  50 * 500 * 2592000 / (31536000 * 10000) = 0 /\
  snd (transact (env_of 7 (t0 + 2592000) true) (withdrawAnnual 50) after_stake)
  = Ok [Moved (TransferTo (STAKING_TOKEN after_stake) 7
                 (50 + 50 * 500 * 2592000 / (31536000 * 10000)));
        Emit (Withdraw 7 50 (50 * 500 * 2592000 / (31536000 * 10000)))].
Proof.
  apply (scenario_E_annual_withdrawal (env_of 7 t0 true)
           (env_of 7 (t0 + 2592000) true) after_deposit after_stake
           [Emit (Staked 7 100); Emit (Stake 7 100)]).
  - apply reachable_step, (reachable_init 1 SCALE 9). reflexivity.
  - vm_compute. reflexivity.
  - vm_compute. reflexivity.
  - reflexivity.
  - reflexivity.
  - reflexivity.
Defined.

(** Scenario E run on the concrete deployment: the reward recorded by the
    call is 0 and the payout is 50; it is not a reward of 1 with a payout
    of 51, and the formula itself does not evaluate to 1. *)
Lemma scenario_E_reward_is_not_1 :
  snd (transact (env_of 7 (t0 + 2592000) true) (withdrawAnnual 50) after_stake)
  = Ok [Moved (TransferTo 1 7 50); Emit (Withdraw 7 50 0)] /\
  snd (transact (env_of 7 (t0 + 2592000) true) (withdrawAnnual 50) after_stake)
  ≠ Ok [Moved (TransferTo 1 7 (50 + 1)); Emit (Withdraw 7 50 1)] /\
  50 * 500 * 2592000 / (31536000 * 10000) ≠ 1.
Proof.
  assert (H : snd (transact (env_of 7 (t0 + 2592000) true) (withdrawAnnual 50)
                     after_stake)
              = Ok [Moved (TransferTo 1 7 50); Emit (Withdraw 7 50 0)])
    by (vm_compute; reflexivity).
  rewrite H. repeat split; discriminate.
Qed.

(** ** The generic deposit *)

(** C8. The generic deposit does not commit accrual.  A successful
    [depositGeneric] leaves the whole ledger state as it was, so
    [deposited], [staked], [rewardsAccrued] and also [lastUpdate] and
    [rewardRemainder] of every account are unchanged, and its only effects
    are the custody inflow of the named asset and the deposit record. *)
Theorem depositGeneric_leaves_ledger_untouched env (asset : address)
    (amount : N) (s s' : State) (l : list Effect) :
  execute env (depositGeneric asset amount) s = Ok (s', l) ->
  s' = s /\
  l = [Moved (TransferFrom asset (msg_sender env) amount);
       Emit (Deposit (msg_sender env) asset amount)].
Proof.
  intros H. open_ops H. follow H. injection H as <- <-. split; reflexivity.
Qed.

Lemma depositGeneric_leaves_ledger_untouched_witness :
  fst (transact (env_of 7 (t0 + 60) true) (depositGeneric 2 5) after_stake)
  = after_stake /\
  [Moved (TransferFrom 2 7 5); Emit (Deposit 7 2 5)]
  = [Moved (TransferFrom 2 (msg_sender (env_of 7 (t0 + 60) true)) 5);
     Emit (Deposit (msg_sender (env_of 7 (t0 + 60) true)) 2 5)].
Proof.
  apply (depositGeneric_leaves_ledger_untouched (env_of 7 (t0 + 60) true) 2 5
           after_stake).
  vm_compute. reflexivity.
Defined.

(** A generic deposit made 60 seconds after the stake completes, and the
    caller's [lastUpdate] is still the time of the stake, not the time of
    the call; a commit at that time would have moved it. *)
Lemma depositGeneric_does_not_commit :
  snd (transact (env_of 7 (t0 + 60) true) (depositGeneric 2 5) after_stake)
  = Ok [Moved (TransferFrom 2 7 5); Emit (Deposit 7 2 5)] /\
  lastUpdate (account_of
    (fst (transact (env_of 7 (t0 + 60) true) (depositGeneric 2 5) after_stake)) 7)
  = t0 /\
  t0 ≠ block_timestamp (env_of 7 (t0 + 60) true) /\
  (_updateRewards (rewardRate after_stake) (t0 + 60)
     (account_of after_stake 7) 7
   = Ok (mkAccount 100 100 6000 (t0 + 60) t0 0, [Emit (RewardsAccrued 7 6000)])).
Proof.
  repeat split; try (vm_compute; reflexivity). discriminate.
Qed.

(** ** The principal withdrawal *)

Lemma set_deposited_same (a : Account) : set_deposited (deposited a) a = a.
Proof. by destruct a. Qed.

(** The principal withdrawal completes when the idle balance covers the
    principal, the accrual commit succeeds, the payout fits in [uint256]
    and the custody pays out. *)
Lemma withdraw_uint256_bool_ok env principal (claim : bool) s a1 evs :
  let a := account_of s (msg_sender env) in
  let rewardsOut := if claim then rewardsAccrued a1 else 0 in
  staked a <= deposited a ->
  principal <= deposited a - staked a ->
  _updateRewards (rewardRate s) (block_timestamp env) a (msg_sender env)
    = Ok (a1, evs) ->
  principal + rewardsOut <= MAX_UINT256 ->
  custody env (TransferTo (STAKING_TOKEN s) (msg_sender env)
                 (principal + rewardsOut)) = true ->
  execute env (withdrawPrincipal principal claim) s
  = Ok (set_account (msg_sender env)
          (set_deposited (deposited a - principal)
             (if claim then set_rewardsAccrued 0 a1 else a1)) s,
        evs ++ [Moved (TransferTo (STAKING_TOKEN s) (msg_sender env)
                         (principal + rewardsOut));
                Emit (Withdrawn (msg_sender env) principal rewardsOut)]).
Proof.
  intros a rewardsOut Hdep Hidle Hup Hsum Hcust. subst rewardsOut.
  cbn [execute]. unfold withdraw_uint256_bool, nonReentrant, safeTransfer,
    checked_add, checked_sub.
  fold a. destruct (updateRewards_frame _ _ _ _ _ _ Hup) as (Hd & _).
  run_tests. rewrite Hup. rstep.
  destruct claim; rstep.
  - destruct (N.ltb_spec 0 principal); run_tests; rewrite Hcust; rstep.
    + by rewrite Hd.
    + assert (principal = 0) as -> by lia.
      rewrite N.sub_0_r, <- Hd.
      change (deposited a1) with (deposited (set_rewardsAccrued 0 a1)).
      by rewrite set_deposited_same.
  - destruct (N.ltb_spec 0 principal); run_tests; rewrite Hcust; rstep.
    + by rewrite Hd.
    + assert (principal = 0) as -> by lia.
      by rewrite N.sub_0_r, <- Hd, set_deposited_same.
Qed.

(** Neither withdrawal reads the suspended flag. *)
Lemma withdrawal_ignores_paused env c (b : bool) s :
  is_withdrawal c = true ->
  execute env c (set_paused b s) = map_state (set_paused b) (execute env c s).
Proof.
  destruct c; try discriminate; intros _; cbn [execute];
    unfold withdraw_uint256_bool, withdraw_uint256, nonReentrant, safeTransfer,
      account_of;
    cbn [accounts rewardRate totalStaked STAKING_TOKEN set_paused];
    repeat (rstep;
      match goal with
      | |- context [mbind _ ?m] => destruct m as [?|?]
      | |- context [if ?b then _ else _] => destruct b
      | |- context [let '(_, _) := ?x in _] => destruct x as [? ?]
      end);
    reflexivity.
Qed.

(** The only way a checkpoint fails is an arithmetic panic. *)
Lemma updateRewards_error rate now a user e :
  _updateRewards rate now a user = Err e -> e = Panic.
Proof.
  intros H. unfold _updateRewards, checked_add, checked_sub, checked_mul in H.
  follow H; congruence.
Qed.

Lemma withdrawal_never_EnforcedPause env c s :
  is_withdrawal c = true -> execute env c s ≠ Err EnforcedPause.
Proof.
  destruct c; try discriminate; intros _ H; open_ops H; follow H.
  all: injection H as ->;
    match goal with
    | Hu : _updateRewards _ _ _ _ = Err _ |- _ =>
        apply updateRewards_error in Hu; discriminate Hu
    end.
Qed.

(** With enough idle balance, only an arithmetic panic or the custody can
    stop the principal withdrawal. *)
Lemma withdraw_uint256_bool_errors env principal claim s e :
  staked (account_of s (msg_sender env)) <= deposited (account_of s (msg_sender env)) ->
  principal <= deposited (account_of s (msg_sender env))
               - staked (account_of s (msg_sender env)) ->
  execute env (withdrawPrincipal principal claim) s = Err e ->
  e = Panic \/ e = CustodyTransferFailed.
Proof.
  intros Hdep Hidle H. open_ops H. follow H; nbool; try lia.
  all: injection H as <-; auto.
  left. match goal with
  | Hu : _updateRewards _ _ _ _ = Err _ |- _ =>
      exact (updateRewards_error _ _ _ _ _ Hu)
  end.
Qed.

(** With a non-zero amount within the stake, only an arithmetic panic or
    the custody can stop the annual-rate withdrawal. *)
Lemma withdraw_uint256_errors env amount s e :
  amount ≠ 0 -> amount <= staked (account_of s (msg_sender env)) ->
  execute env (withdrawAnnual amount) s = Err e ->
  e = Panic \/ e = CustodyTransferFailed.
Proof.
  intros Hne Hle H. open_ops H. follow H; nbool; try lia.
  all: injection H as <-; auto.
Qed.

(** C10. Zero-principal reward claim.  [withdrawPrincipal (0, true)] never
    fails with [InvalidAmount].  In every reachable state and for every
    account nothing in the ledger can reject it, but it can still fail:
    the only errors it can return are an arithmetic panic and a failed
    custody transfer.  When the accrual commit of the call succeeds and
    the custody pays out, the call succeeds, leaves [deposited] and
    [staked] unchanged, pays out exactly the [rewardsAccrued] left by that
    commit and resets it to 0. *)
Theorem claim_with_zero_principal env (s : State) :
  execute env (withdrawPrincipal 0 true) s ≠ Err InvalidAmount /\
  (reachable s ->
   (forall e, execute env (withdrawPrincipal 0 true) s = Err e ->
              e = Panic \/ e = CustodyTransferFailed) /\
   (forall a1 evs,
      _updateRewards (rewardRate s) (block_timestamp env)
        (account_of s (msg_sender env)) (msg_sender env) = Ok (a1, evs) ->
      custody env (TransferTo (STAKING_TOKEN s) (msg_sender env)
                     (rewardsAccrued a1)) = true ->
      exists s',
        execute env (withdrawPrincipal 0 true) s
        = Ok (s', evs ++ [Moved (TransferTo (STAKING_TOKEN s) (msg_sender env)
                                   (rewardsAccrued a1));
                          Emit (Withdrawn (msg_sender env) 0 (rewardsAccrued a1))]) /\
        deposited (account_of s' (msg_sender env))
          = deposited (account_of s (msg_sender env)) /\
        staked (account_of s' (msg_sender env))
          = staked (account_of s (msg_sender env)) /\
        rewardsAccrued (account_of s' (msg_sender env)) = 0)).
Proof.
  split.
  { intros H. open_ops H. follow H. injection H as ->.
    match goal with
    | Hu : _updateRewards _ _ _ _ = Err _ |- _ =>
        apply updateRewards_error in Hu; discriminate Hu
    end. }
  intros Hreach.
  destruct (reachable_accounts_inv s Hreach (msg_sender env)) as (Hdep & Hra & _).
  split.
  { intros e. apply withdraw_uint256_bool_errors; [done|apply N.le_0_l]. }
  intros a1 evs Hup Hcust.
  destruct (updateRewards_frame _ _ _ _ _ _ Hup) as (Hd & Hs & _ & _ & Hra1 & _).
  eexists. split.
  - rewrite (withdraw_uint256_bool_ok env 0 true s a1 evs); try done.
    + lia.
    + cbn. destruct Hra1 as [->|]; lia.
  - rewrite account_of_set_account. case_decide; [|done].
    rstep. rewrite Hs. repeat split. lia.
Qed.

(** The depositor of the concrete deployment claims 60 seconds after
    staking.  The commit credits 6000, while the contract holds only the
    100 deposited: the custody refuses the payout and the claim fails, so
    the zero-principal claim does not succeed for every account. *)
Lemma claim_with_zero_principal_can_fail :
  reachable after_stake /\
  _updateRewards (rewardRate after_stake) (t0 + 60) (account_of after_stake 7) 7
  = Ok (mkAccount 100 100 6000 (t0 + 60) t0 0, [Emit (RewardsAccrued 7 6000)]) /\
  execute (env_of 7 (t0 + 60) false) (withdrawPrincipal 0 true) after_stake
  = Err CustodyTransferFailed /\
  ~ (exists s' l,
       execute (env_of 7 (t0 + 60) false) (withdrawPrincipal 0 true) after_stake
       = Ok (s', l)).
Proof.
  assert (H : execute (env_of 7 (t0 + 60) false) (withdrawPrincipal 0 true)
                after_stake = Err CustodyTransferFailed)
    by (vm_compute; reflexivity).
  split.
  { apply reachable_step, reachable_step, (reachable_init 1 SCALE 9).
    reflexivity. }
  split; [vm_compute; reflexivity|]. split; [exact H|].
  intros (s' & l & Hok). rewrite H in Hok. discriminate Hok.
Qed.

(** ** Suspension *)

(** C4. Suspension does not gate the withdrawals.  While the contract is
    suspended, [stake] fails with the pause error whatever the amount.
    Neither withdrawal ever fails with the pause error, and its outcome
    does not depend on the flag: setting the flag before the call or after
    it gives the same result.  In a suspended reachable state, a principal
    withdrawal covered by the idle balance and an annual-rate withdrawal
    of a non-zero amount within the stake can still fail, but only with an
    arithmetic panic or a failed custody transfer.  When the arithmetic of
    the call fits in [uint256] and the custody pays out, they complete:
    the principal withdrawal stores the committed record with the
    principal taken off [deposited] (and the rewards cleared when claimed)
    and pays the principal plus the rewards claimed; the annual-rate
    withdrawal takes the amount off [deposited], [staked] and
    [totalStaked], restarts or clears the cycle clock and pays the amount
    plus the annual-rate reward. *)
Theorem pause_never_traps_assets env (s : State) :
  paused s = true ->
  (forall amount, execute env (stakeCall amount) s = Err EnforcedPause) /\
  (forall c, is_withdrawal c = true ->
     execute env c s ≠ Err EnforcedPause /\
     forall b, execute env c (set_paused b s)
               = map_state (set_paused b) (execute env c s)) /\
  (forall principal (claim : bool),
     let a := account_of s (msg_sender env) in
     reachable s ->
     principal <= deposited a - staked a ->
     (forall e, execute env (withdrawPrincipal principal claim) s = Err e ->
                e = Panic \/ e = CustodyTransferFailed) /\
     (forall a1 evs,
        let rewardsOut := if claim then rewardsAccrued a1 else 0 in
        _updateRewards (rewardRate s) (block_timestamp env) a (msg_sender env)
          = Ok (a1, evs) ->
        principal + rewardsOut <= MAX_UINT256 ->
        custody env (TransferTo (STAKING_TOKEN s) (msg_sender env)
                       (principal + rewardsOut)) = true ->
        execute env (withdrawPrincipal principal claim) s
        = Ok (set_account (msg_sender env)
                (set_deposited (deposited a - principal)
                   (if claim then set_rewardsAccrued 0 a1 else a1)) s,
              evs ++ [Moved (TransferTo (STAKING_TOKEN s) (msg_sender env)
                               (principal + rewardsOut));
                      Emit (Withdrawn (msg_sender env) principal rewardsOut)]))) /\
  (forall amount,
     let a := account_of s (msg_sender env) in
     let now := block_timestamp env in
     let rewards := annual_reward amount (now - cycle_start now a) in
     reachable s ->
     amount ≠ 0 -> amount <= staked a ->
     (forall e, execute env (withdrawAnnual amount) s = Err e ->
                e = Panic \/ e = CustodyTransferFailed) /\
     (stakeStart a <= now ->
      amount * ANNUAL_RATE_BPS <= MAX_UINT256 ->
      amount * ANNUAL_RATE_BPS * (now - cycle_start now a) <= MAX_UINT256 ->
      amount + rewards <= MAX_UINT256 ->
      custody env (TransferTo (STAKING_TOKEN s) (msg_sender env)
                     (amount + rewards)) = true ->
      execute env (withdrawAnnual amount) s
      = Ok (set_totalStaked (totalStaked s - amount)
              (set_account (msg_sender env)
                 (mkAccount (deposited a - amount) (staked a - amount)
                    (rewardsAccrued a) (lastUpdate a)
                    (if 0 <? staked a - amount then now else 0)
                    (rewardRemainder a)) s),
            [Moved (TransferTo (STAKING_TOKEN s) (msg_sender env)
                      (amount + rewards));
             Emit (Withdraw (msg_sender env) amount rewards)]))).
Proof.
  intros Hp. split; [|split; [|split]].
  - intros amount. cbn [execute]. unfold stake, whenNotPaused.
    by rewrite Hp.
  - intros c Hc. split.
    + by apply withdrawal_never_EnforcedPause.
    + intros b. by apply withdrawal_ignores_paused.
  - intros principal claim a Hreach Hidle.
    destruct (reachable_accounts_inv s Hreach (msg_sender env)) as (Hdep & _).
    split.
    + intros e. by apply withdraw_uint256_bool_errors.
    + intros a1 evs rewardsOut Hup Hsum Hcust.
      by apply withdraw_uint256_bool_ok.
  - intros amount a now rewards Hreach Hne Hle.
    destruct (reachable_accounts_inv s Hreach (msg_sender env)) as (Hdep & _).
    pose proof (staked_le_total s (msg_sender env) (reachable_total_inv s Hreach)).
    split.
    + intros e. by apply withdraw_uint256_errors.
    + intros Hstart Hm1 Hm2 Hsum Hcust.
      by apply withdraw_uint256_ok.
Qed.

(** Two suspended deployments in which a withdrawal that meets its own
    preconditions fails.  In the first the administrator has raised the
    rate to 2^255: the depositor has 50 idle, and withdrawing 10 of it a
    minute later fails in the accrual commit, where [50 * 2^255] does not
    fit in [uint256].  In the second the contract holds the 100 deposited
    and nothing else: a year after the stake the annual-rate withdrawal of
    the 100 staked owes 105, the custody refuses and the call fails. *)
Lemma paused_withdrawal_can_fail :
  (reachable after_rate_raise /\
   paused after_rate_raise = true /\
   10 <= deposited (account_of after_rate_raise 7)
         - staked (account_of after_rate_raise 7) /\
   execute (env_of 7 (t0 + 60) true) (withdrawPrincipal 10 false)
     after_rate_raise = Err Panic) /\
  (reachable after_pause /\
   paused after_pause = true /\
   100 ≠ 0 /\ 100 <= staked (account_of after_pause 7) /\
   annual_reward 100 SECONDS_PER_YEAR = 5 /\
   execute (env_of 7 (t0 + SECONDS_PER_YEAR) false) (withdrawAnnual 100)
     after_pause = Err CustodyTransferFailed).
Proof.
  split.
  - split.
    { unfold after_rate_raise.
      apply reachable_step, reachable_step, reachable_step, reachable_step,
        (reachable_init 1 SCALE 9). reflexivity. }
    split; [vm_compute; reflexivity|]. split.
    + apply N.leb_le. vm_compute. reflexivity.
    + vm_compute. reflexivity.
  - split.
    { apply reachable_step, reachable_step, reachable_step,
        (reachable_init 1 SCALE 9). reflexivity. }
    split; [vm_compute; reflexivity|]. split; [discriminate|]. split.
    + apply N.leb_le. vm_compute. reflexivity.
    + split; vm_compute; reflexivity.
Qed.

(** ** The reward rate *)

Lemma pendingRewards_ok s now user :
  let a := account_of s user in
  0 < staked a -> lastUpdate a <= now ->
  staked a * rewardRate s <= MAX_UINT256 ->
  staked a * rewardRate s * (now - lastUpdate a) <= MAX_UINT256 ->
  totalScaled_at (rewardRate s) now a <= MAX_UINT256 ->
  rewardsAccrued a + totalScaled_at (rewardRate s) now a / SCALE <= MAX_UINT256 ->
  pendingRewards s now user
  = Ok (rewardsAccrued a + totalScaled_at (rewardRate s) now a / SCALE).
Proof.
  intros a Hst Hlu H1 H2 H3 H4.
  unfold pendingRewards, checked_add, checked_sub, checked_mul.
  fold a. unfold totalScaled_at in *. run_tests. reflexivity.
Qed.



(** ** The theorems at work on the concrete deployment *)

Lemma totalStaked_is_sum_of_staked_witness :
  totalStaked after_stake = sum_staked (accounts after_stake).
Proof.
  apply (proj1 (totalStaked_is_sum_of_staked after_stake
    ltac:(apply reachable_step, reachable_step, (reachable_init 1 SCALE 9);
          reflexivity))).
Defined.

Lemma rewardRemainder_below_SCALE_witness :
  0 <= rewardRemainder (account_of after_stake 7) < SCALE /\ SCALE = 10 ^ 18.
Proof.
  apply rewardRemainder_below_SCALE.
  apply reachable_step, reachable_step, (reachable_init 1 SCALE 9).
  reflexivity.
Defined.

Lemma pause_never_traps_assets_witness :
  execute (env_of 7 (t0 + 2592000) true) (stakeCall 5) after_pause
    = Err EnforcedPause /\
  execute (env_of 7 (t0 + 2592000) true) (withdrawPrincipal 0 true) after_pause
    = Ok (set_account 7
            (set_deposited (100 - 0)
               (set_rewardsAccrued 0
                  (mkAccount 100 100 259200000 (t0 + 2592000) t0 0)))
            after_pause,
          [Emit (RewardsAccrued 7 259200000)]
          ++ [Moved (TransferTo 1 7 (0 + 259200000));
              Emit (Withdrawn 7 0 259200000)]) /\
  execute (env_of 7 (t0 + 2592000) true) (withdrawAnnual 50) after_pause
    = Ok (set_totalStaked (100 - 50)
            (set_account 7 (mkAccount (100 - 50) (100 - 50) 0 t0 (t0 + 2592000) 0)
               after_pause),
          [Moved (TransferTo 1 7 (50 + 0)); Emit (Withdraw 7 50 0)]).
Proof.
  assert (Hreach : reachable after_pause).
  { apply reachable_step, reachable_step, reachable_step,
      (reachable_init 1 SCALE 9). reflexivity. }
  destruct (pause_never_traps_assets (env_of 7 (t0 + 2592000) true) after_pause)
    as (Hstake & _ & Hprincipal & Hannual).
  { vm_compute. reflexivity. }
  split; [apply Hstake|]. split.
  - apply (proj2 (Hprincipal 0 true Hreach (N.le_0_l _))
             (mkAccount 100 100 259200000 (t0 + 2592000) t0 0)
             [Emit (RewardsAccrued 7 259200000)]).
    + vm_compute. reflexivity.
    + apply N.leb_le. vm_compute. reflexivity.
    + reflexivity.
  - apply (proj2 (Hannual 50 Hreach ltac:(discriminate)
                    ltac:(apply N.leb_le; vm_compute; reflexivity))).
    + apply N.leb_le. vm_compute. reflexivity.
    + apply N.leb_le. vm_compute. reflexivity.
    + apply N.leb_le. vm_compute. reflexivity.
    + apply N.leb_le. vm_compute. reflexivity.
    + reflexivity.
Defined.


Lemma claim_with_zero_principal_witness :
  exists s',
    execute (env_of 7 (t0 + 60) true) (withdrawPrincipal 0 true) after_stake
    = Ok (s', [Emit (RewardsAccrued 7 6000)]
              ++ [Moved (TransferTo (STAKING_TOKEN after_stake) 7 6000);
                  Emit (Withdrawn 7 0 6000)]) /\
    deposited (account_of s' 7) = deposited (account_of after_stake 7) /\
    staked (account_of s' 7) = staked (account_of after_stake 7) /\
    rewardsAccrued (account_of s' 7) = 0.
Proof.
  apply (proj2 (proj2 (claim_with_zero_principal (env_of 7 (t0 + 60) true)
                         after_stake)
                  ltac:(apply reachable_step, reachable_step,
                          (reachable_init 1 SCALE 9); reflexivity))
           (mkAccount 100 100 6000 (t0 + 60) t0 0)
           [Emit (RewardsAccrued 7 6000)]).
  - vm_compute. reflexivity.
  - reflexivity.
Defined.

(** ** The scenarios of section 8 on the concrete deployment *)

(** Scenario A: ten units staked for ten seconds at one unit per second
    per unit staked have 100 units pending. *)
Example scenario_A :
  pendingRewards
    (fst (transact (env_of 7 t0 true) (stakeCall 10) after_deposit))
    (t0 + 10) 7
  = Ok 100.
Proof. vm_compute. reflexivity. Qed.

(** Scenario B: with 20 deposited and 10 staked, withdrawing 5 of the idle
    10 succeeds and a further 6 fails for lack of idle balance. *)
Example scenario_B :
  let s1 := fst (transact (env_of 8 t0 true) (depositPrincipal 20) genesis) in
  let s2 := fst (transact (env_of 8 t0 true) (stakeCall 10) s1) in
  let r3 := transact (env_of 8 (t0 + 1) true) (withdrawPrincipal 5 false) s2 in
  snd r3 = Ok [Emit (RewardsAccrued 8 10); Moved (TransferTo 1 8 5);
               Emit (Withdrawn 8 5 0)] /\
  snd (transact (env_of 8 (t0 + 2) true) (withdrawPrincipal 6 false) (fst r3))
  = Err (InsufficientBalance 5 6).
Proof. vm_compute. split; reflexivity. Qed.

(** Scenario C: a commit with no time elapsed changes nothing and records
    nothing. *)
Example scenario_C :
  _updateRewards (rewardRate after_stake) t0 (account_of after_stake 7) 7
  = Ok (account_of after_stake 7, []).
Proof. vm_compute. reflexivity. Qed.

(** Scenario D: while suspended, staking fails and the principal
    withdrawal still completes. *)
Example scenario_D :
  let s1 := fst (transact (env_of 8 t0 true) (depositPrincipal 20) genesis) in
  let s2 := fst (transact (env_of 9 (t0 + 1) true) pauseCall s1) in
  paused s2 = true /\
  snd (transact (env_of 8 (t0 + 2) true) (stakeCall 10) s2) = Err EnforcedPause /\
  snd (transact (env_of 8 (t0 + 2) true) (withdrawPrincipal 20 false) s2)
  = Ok [Moved (TransferTo 1 8 20); Emit (Withdrawn 8 20 0)].
Proof. vm_compute. repeat split; reflexivity. Qed.

(** Scenario E with amounts in token units of 10^18 base units: 100 units
    staked for 30 days, 50 withdrawn by the annual-rate path.  The reward
    is 205479452054794520 base units, about 0.205 of a unit. *)
Example scenario_E_in_token_units :
  let u := 10 ^ 18 in
  let s1 := fst (transact (env_of 8 t0 true) (depositPrincipal (100 * u)) genesis) in
  let s2 := fst (transact (env_of 8 t0 true) (stakeCall (100 * u)) s1) in
  snd (transact (env_of 8 (t0 + 2592000) true) (withdrawAnnual (50 * u)) s2)
  = Ok [Moved (TransferTo 1 8 (50 * u + 205479452054794520));
        Emit (Withdraw 8 (50 * u) 205479452054794520)].
Proof. vm_compute. reflexivity. Qed.

(** * Further properties of the contract *)

(** ** The accrual views *)

(** What a successful [pendingRewards] computed. *)
Lemma pendingRewards_inv s now user p :
  pendingRewards s now user = Ok p ->
  let a := account_of s user in
  (staked a = 0 /\ p = rewardsAccrued a) \/
  (0 < staked a /\ lastUpdate a <= now /\
   staked a * rewardRate s <= MAX_UINT256 /\
   totalScaled_at (rewardRate s) now a <= MAX_UINT256 /\
   p = rewardsAccrued a + totalScaled_at (rewardRate s) now a / SCALE /\
   p <= MAX_UINT256).
Proof.
  intros H a. unfold pendingRewards in H. fold a in H.
  destruct (N.eqb_spec (staked a) 0) as [Hz|Hnz].
  { left. injection H as <-. by split. }
  right. unfold checked_add, checked_sub, checked_mul in H.
  follow H. nbool. injection H as <-. unfold totalScaled_at.
  repeat split; try done. lia.
Qed.

(** The view returns what a successful commit stores. *)
Lemma pendingRewards_of_commit s now user a' evs :
  account_inv (account_of s user) ->
  staked (account_of s user) = 0 \/ lastUpdate (account_of s user) ≠ 0 ->
  staked (account_of s user) * rewardRate s <= MAX_UINT256 ->
  _updateRewards (rewardRate s) now (account_of s user) user = Ok (a', evs) ->
  pendingRewards s now user = Ok (rewardsAccrued a').
Proof.
  set (a := account_of s user). intros (Hdep & Hra & Hrem) Hcom Hsr Hup.
  destruct (N.eq_dec (staked a) 0) as [Hz|Hnz].
  { rewrite updateRewards_unstaked in Hup by done. injection Hup as <- _.
    unfold pendingRewards. fold a. by rewrite Hz. }
  destruct Hcom as [|Hlu]; [done|].
  assert (Hst : 0 < staked a) by lia.
  destruct (N.lt_trichotomy (lastUpdate a) now) as [Hlt|[Heq|Hgt]].
  - destruct (updateRewards_inv _ _ _ _ _ _ Hlu Hst Hlt Hup)
      as (H1 & H2 & H3 & H4 & ->).
    rewrite pendingRewards_ok; fold a; try done; try lia.
  - subst now. rewrite updateRewards_same_time in Hup by done.
    injection Hup as <- _.
    assert (Htot0 : totalScaled_at (rewardRate s) (lastUpdate a) a
                    = rewardRemainder a).
    { unfold totalScaled_at. rewrite N.sub_diag, N.mul_0_r. apply N.add_0_l. }
    assert (Hdiv0 : rewardRemainder a / SCALE = 0) by (by apply N.div_small).
    assert (HremMax : rewardRemainder a <= MAX_UINT256).
    { pose proof MAX_UINT256_large as Hbig.
      change (2 ^ 128) with 340282366920938463463374607431768211456 in Hbig.
      unfold SCALE in Hrem. lia. }
    rewrite pendingRewards_ok; fold a;
      rewrite ?Htot0, ?Hdiv0, ?N.sub_diag, ?N.mul_0_r, ?N.add_0_r;
      try done; lia.
  - exfalso. unfold _updateRewards, checked_sub in Hup.
    destruct (N.eqb_spec (lastUpdate a) 0) as [|_]; [done|].
    destruct (N.ltb_spec 0 (staked a)) as [_|]; [|lia].
    destruct (N.leb_spec (lastUpdate a) now) as [|_]; [lia|].
    discriminate Hup.
Qed.

(** X1. The view and the commit agree: whenever a commit at [now] succeeds,
    [pendingRewards] at [now] returns the [rewardsAccrued] that the commit
    stores.  The account is one the contract can hold (invariant,
    committed if staked) whose per-second emission fits in [uint256]. *)
Theorem pendingRewards_matches_commit s now user a' evs :
  account_inv (account_of s user) ->
  staked (account_of s user) = 0 \/ lastUpdate (account_of s user) ≠ 0 ->
  staked (account_of s user) * rewardRate s <= MAX_UINT256 ->
  _updateRewards (rewardRate s) now (account_of s user) user = Ok (a', evs) ->
  pendingRewards s now user = Ok (rewardsAccrued a').
Proof. exact (pendingRewards_of_commit s now user a' evs). Qed.

Lemma pendingRewards_matches_commit_witness :
  pendingRewards after_stake (t0 + 60) 7 = Ok 6000.
Proof.
  apply (pendingRewards_matches_commit after_stake (t0 + 60) 7
           (mkAccount 100 100 6000 (t0 + 60) t0 0)
           [Emit (RewardsAccrued 7 6000)]).
  - repeat split; vm_compute; (reflexivity || discriminate).
  - right. vm_compute. discriminate.
  - apply N.leb_le. vm_compute. reflexivity.
  - vm_compute. reflexivity.
Defined.

(** X2. The detailed view is consistent with the simple one: its total is
    what [pendingRewards] returns and is the stored rewards plus the new
    portion.  For a staked account the reported remainder is below
    [SCALE] and new portion and remainder split the scaled numerator
    exactly; for an unstaked account the new portion is 0 and the
    remainder is the stored one. *)
Theorem pendingRewardsDetailed_consistent s now user total newPortion rem :
  pendingRewardsDetailed s now user = Ok (total, newPortion, rem) ->
  pendingRewards s now user = Ok total /\
  total = rewardsAccrued (account_of s user) + newPortion /\
  (0 < staked (account_of s user) ->
   rem < SCALE /\
   newPortion * SCALE + rem
   = staked (account_of s user) * rewardRate s
       * (now - lastUpdate (account_of s user))
     + rewardRemainder (account_of s user)) /\
  (staked (account_of s user) = 0 ->
   newPortion = 0 /\ rem = rewardRemainder (account_of s user)).
Proof.
  set (a := account_of s user). intros H.
  unfold pendingRewardsDetailed, pendingRewards in *. fold a in H |- *.
  destruct (N.eqb_spec (staked a) 0) as [Hz|Hnz].
  { injection H as <- <- <-. repeat split; try lia. }
  unfold checked_add, checked_sub, checked_mul in *.
  follow H. nbool. injection H as <- <- <-.
  run_tests.
  split; [reflexivity|]. split; [reflexivity|]. split; [|lia].
  intros _. split; [apply N.mod_lt, SCALE_neq_0|].
  rewrite N.mul_comm. symmetry. apply N.div_mod, SCALE_neq_0.
Qed.

Lemma pendingRewardsDetailed_consistent_witness :
  pendingRewards after_stake (t0 + 60) 7 = Ok 6000.
Proof.
  apply (pendingRewardsDetailed_consistent after_stake (t0 + 60) 7 6000 6000 0).
  vm_compute. reflexivity.
Defined.

(** X3. Pending rewards never decrease as time passes: if the view succeeds
    at [t2], it succeeds at every earlier time from the last checkpoint
    on, with a value that is no larger. *)
Theorem pendingRewards_monotone s user (t1 t2 : N) p2 :
  lastUpdate (account_of s user) <= t1 -> t1 <= t2 ->
  pendingRewards s t2 user = Ok p2 ->
  exists p1, pendingRewards s t1 user = Ok p1 /\ p1 <= p2.
Proof.
  intros Hlu Hle H2.
  destruct (pendingRewards_inv _ _ _ _ H2)
    as [(Hz & ->)|(Hst & _ & Hsr & Htot & -> & Hmax)];
    set (a := account_of s user) in *.
  { exists (rewardsAccrued a). split; [|lia].
    unfold pendingRewards. fold a. by rewrite Hz. }
  assert (Hmono : totalScaled_at (rewardRate s) t1 a
                  <= totalScaled_at (rewardRate s) t2 a).
  { unfold totalScaled_at. apply N.add_le_mono_r, N.mul_le_mono_l. lia. }
  pose proof (N.Div0.div_le_mono _ _ SCALE Hmono) as Hdiv.
  eexists. split.
  - apply pendingRewards_ok; fold a; try done; try lia.
    unfold totalScaled_at in *. lia.
  - fold a. lia.
Qed.

Lemma pendingRewards_monotone_witness :
  exists p1, pendingRewards after_stake (t0 + 30) 7 = Ok p1 /\ p1 <= 6000.
Proof.
  apply (pendingRewards_monotone after_stake 7 (t0 + 30) (t0 + 60) 6000).
  - apply N.leb_le. vm_compute. reflexivity.
  - apply N.leb_le. vm_compute. reflexivity.
  - vm_compute. reflexivity.
Defined.

(** ** The commit *)

(** X4. A second commit at the same timestamp changes nothing and records
    nothing. *)
Theorem updateRewards_idempotent rate now (a a1 : Account) user evs :
  _updateRewards rate now a user = Ok (a1, evs) ->
  _updateRewards rate now a1 user = Ok (a1, []).
Proof.
  intros H.
  destruct (updateRewards_frame _ _ _ _ _ _ H) as (_ & Hs & _ & Hlu & _).
  destruct (N.eq_dec now 0) as [Hz|Hnz].
  - unfold _updateRewards at 1. rewrite Hlu, Hz. cbn [N.eqb].
    rewrite <- Hz at 1. rewrite <- Hlu. by rewrite set_lastUpdate_same.
  - rewrite <- Hlu in Hnz |- *. by apply updateRewards_same_time.
Qed.

Lemma updateRewards_idempotent_witness :
  _updateRewards SCALE (t0 + 60) (mkAccount 100 100 6000 (t0 + 60) t0 0) 7
  = Ok (mkAccount 100 100 6000 (t0 + 60) t0 0, []).
Proof.
  apply (updateRewards_idempotent SCALE (t0 + 60) (mkAccount 100 100 0 t0 t0 0)
           _ 7 [Emit (RewardsAccrued 7 6000)]).
  vm_compute. reflexivity.
Defined.

(** One commit conserves the scaled numerator: what it credits times
    [SCALE], plus what it carries, is what was there plus the emission of
    the interval. *)
Lemma updateRewards_conserves rate now (a a1 : Account) user evs :
  staked a = 0 \/ lastUpdate a ≠ 0 ->
  _updateRewards rate now a user = Ok (a1, evs) ->
  staked a1 = staked a /\ lastUpdate a1 = now /\
  (staked a = 0 \/ lastUpdate a <= now) /\
  rewardsAccrued a1 * SCALE + rewardRemainder a1
  = rewardsAccrued a * SCALE + rewardRemainder a
    + staked a * rate * (now - lastUpdate a).
Proof.
  intros Hcom H.
  destruct (updateRewards_frame _ _ _ _ _ _ H) as (_ & Hs & _ & Hlu & _).
  split; [done|]. split; [done|].
  destruct (N.eq_dec (staked a) 0) as [Hz|Hnz].
  { rewrite updateRewards_unstaked in H by done. injection H as <- _.
    split; [by left|]. rewrite Hz. cbn. lia. }
  destruct Hcom as [|Hne]; [done|].
  assert (Hst : 0 < staked a) by lia.
  destruct (N.lt_trichotomy (lastUpdate a) now) as [Hlt|[Heq|Hgt]].
  - destruct (updateRewards_inv _ _ _ _ _ _ Hne Hst Hlt H) as (_ & _ & _ & _ & ->).
    split; [right; lia|]. cbn [rewardsAccrued rewardRemainder accrued_at].
    pose proof (N.div_mod (totalScaled_at rate now a) SCALE SCALE_neq_0) as Hdm.
    unfold totalScaled_at in Hdm at 1. name_divmod. lia.
  - clear Hlu. rewrite <- Heq in H |- *.
    rewrite updateRewards_same_time in H by done.
    injection H as <- _. split; [right; lia|].
    rewrite N.sub_diag, N.mul_0_r. lia.
  - exfalso. unfold _updateRewards, checked_sub in H.
    destruct (N.eqb_spec (lastUpdate a) 0) as [|_]; [done|].
    destruct (N.ltb_spec 0 (staked a)) as [_|]; [|lia].
    destruct (N.leb_spec (lastUpdate a) now) as [|_]; [lia|].
    discriminate H.
Qed.

(** X5. No drift over any number of checkpoints: after committing at each
    checkpoint of a list and finally at [c], the rewards credited times
    [SCALE] plus the carried remainder equal what the account started
    with plus [staked * rate * (c - lastUpdate)], to the last digit. *)
Theorem commit_each_conserves rate user (checkpoints : list N) (c : N)
    (a a1 : Account) :
  staked a = 0 \/ lastUpdate a ≠ 0 ->
  ascending (lastUpdate a) checkpoints c ->
  commit_each rate user (checkpoints ++ [c]) a = Ok a1 ->
  rewardsAccrued a1 * SCALE + rewardRemainder a1
  = rewardsAccrued a * SCALE + rewardRemainder a
    + staked a * rate * (c - lastUpdate a).
Proof.
  revert a. induction checkpoints as [|b rest IH]; intros a Hcom Hasc H;
    cbn [app commit_each] in H;
    apply bind_Ok in H as ([ab evs] & Hb & H).
  - injection H as <-. by apply (updateRewards_conserves rate c a ab user evs).
  - destruct Hasc as [Hab Hrest].
    pose proof (ascending_le _ _ _ Hrest) as Hbc.
    destruct (updateRewards_conserves _ _ _ _ _ _ Hcom Hb)
      as (Hs & Hlu & _ & Hcons).
    rewrite <- Hlu in Hrest.
    assert (Hcom' : staked ab = 0 \/ lastUpdate ab ≠ 0).
    { destruct Hcom as [Hz|Hne]; [left; congruence|right; lia]. }
    rewrite (IH ab Hcom' Hrest H), Hcons, Hs, Hlu.
    replace (c - lastUpdate a) with ((b - lastUpdate a) + (c - b)) by lia.
    rewrite N.mul_add_distr_l. lia.
Qed.

Lemma commit_each_conserves_witness :
  33 * SCALE + 333333333333333300
  = 0 * SCALE + 0 + 10 * 333333333333333333 * (1010 - 1000).
Proof.
  apply (commit_each_conserves 333333333333333333 7 [1003; 1007] 1010
           (mkAccount 100 10 0 1000 1000 0)
           (mkAccount 100 10 33 1010 1000 333333333333333300)).
  - right. discriminate.
  - cbn. lia.
  - vm_compute. reflexivity.
Defined.

(** ** Invariants of the ledger *)

(** Opens a completed call and exposes the caller's record before and
    after it, for a goal about [account_of] of the resulting state. *)
Ltac open_call Hex :=
  open_ops Hex; follow Hex; injection Hex as <- <-;
  repeat match goal with
  | Hup : _updateRewards _ _ _ _ = Ok _ |- _ =>
      apply updateRewards_frame in Hup;
      destruct Hup as (? & ? & ? & ? & ? & ?)
  end;
  rewrite ?account_of_set_totalStaked, ?account_of_set_rewardRate,
    ?account_of_set_paused, ?account_of_set_account.

Lemma bounds_inv_init token rate admin s :
  constructor token rate admin = Ok s -> bounds_inv s.
Proof.
  unfold constructor. destruct (token =? 0); [discriminate|].
  intros [= <-]. split; [cbn; lia|]. intros user. unfold account_of.
  cbn [accounts]. rewrite lookup_empty. cbn. lia.
Qed.

Lemma bounds_inv_step env c s :
  accounts_inv s -> bounds_inv s -> bounds_inv (fst (transact env c s)).
Proof.
  intros Hacc [Htot Hdep].
  destruct (transact_cases env c s) as [(s' & l & Hex & ->)|(e & _ & ->)];
    [|by split].
  cbn [fst]. split.
  - destruct (execute_staked_delta _ _ _ _ _ Hex) as (Hd & _).
    destruct c; cbn [staked_delta] in Hd; try lia.
    open_ops Hex. follow Hex. injection Hex as <- <-. nbool.
    cbn [totalStaked set_totalStaked]. lia.
  - intros user. specialize (Hdep (msg_sender env)) as Hme.
    specialize (Hdep user) as Hu. revert Hu.
    destruct c; open_call Hex; try done;
      case_decide; try done; intros _;
      repeat case_match; rstep; nbool; lia.
Qed.

Lemma reachable_bounds_inv s : reachable s -> bounds_inv s.
Proof.
  induction 1 as [token rate admin s Hinit | env c s Hr IH].
  - exact (bounds_inv_init _ _ _ _ Hinit).
  - exact (bounds_inv_step env c s (reachable_accounts_inv s Hr) IH).
Qed.

(** X6. Solvency of every account and range of every amount: in every state
    the contract can be in, each account stakes at most what it has
    deposited, and deposits, accrued rewards and the total staked are
    within [uint256]. *)
Theorem staked_within_deposited (s : State) (user : address) :
  reachable s ->
  staked (account_of s user) <= deposited (account_of s user) /\
  deposited (account_of s user) <= MAX_UINT256 /\
  rewardsAccrued (account_of s user) <= MAX_UINT256 /\
  totalStaked s <= MAX_UINT256.
Proof.
  intros Hr.
  destruct (reachable_accounts_inv s Hr user) as (H1 & H2 & _).
  destruct (reachable_bounds_inv s Hr) as (H3 & H4).
  repeat split; auto.
Qed.

Lemma staked_within_deposited_witness :
  staked (account_of after_stake 7) <= deposited (account_of after_stake 7) /\
  deposited (account_of after_stake 7) <= MAX_UINT256 /\
  rewardsAccrued (account_of after_stake 7) <= MAX_UINT256 /\
  totalStaked after_stake <= MAX_UINT256.
Proof.
  apply staked_within_deposited.
  apply reachable_step, reachable_step, (reachable_init 1 SCALE 9).
  reflexivity.
Defined.

Lemma cycle_inv_init token rate admin s :
  constructor token rate admin = Ok s -> cycle_inv s.
Proof.
  unfold constructor. destruct (token =? 0); [discriminate|].
  intros [= <-] user _. unfold account_of. cbn [accounts].
  by rewrite lookup_empty.
Qed.

Lemma cycle_inv_step env c s :
  cycle_inv s -> cycle_inv (fst (transact env c s)).
Proof.
  intros Hinv.
  destruct (transact_cases env c s) as [(s' & l & Hex & ->)|(e & _ & ->)];
    [|exact Hinv].
  cbn [fst]. intros user.
  specialize (Hinv (msg_sender env)) as Hme. specialize (Hinv user) as Hu.
  revert Hu.
  destruct c; open_call Hex; try done;
    case_decide; try done; intros _;
    repeat case_match; rstep; nbool; intros; try lia.
  all: rewrite <- Hme; lia.
Qed.

(** X7. The cycle clock is clear whenever nothing is staked: in every state
    the contract can be in, an account with [staked = 0] has
    [stakeStart = 0]. *)
Theorem unstaked_has_no_cycle (s : State) (user : address) :
  reachable s ->
  staked (account_of s user) = 0 -> stakeStart (account_of s user) = 0.
Proof.
  intros Hr. revert user. change (cycle_inv s).
  induction Hr as [token rate admin s Hinit | env c s _ IH].
  - exact (cycle_inv_init _ _ _ _ Hinit).
  - exact (cycle_inv_step env c s IH).
Qed.

Lemma unstaked_has_no_cycle_witness :
  stakeStart (account_of after_deposit 7) = 0.
Proof.
  apply unstaked_has_no_cycle.
  - apply reachable_step, (reachable_init 1 SCALE 9). reflexivity.
  - vm_compute. reflexivity.
Defined.

Lemma cycle_started_step env c s :
  block_timestamp env ≠ 0 ->
  cycle_started_inv s -> cycle_started_inv (fst (transact env c s)).
Proof.
  intros Hnow Hinv.
  destruct (transact_cases env c s) as [(s' & l & Hex & ->)|(e & _ & ->)];
    [|exact Hinv].
  cbn [fst]. intros user.
  specialize (Hinv (msg_sender env)) as Hme. specialize (Hinv user) as Hu.
  revert Hu.
  destruct c; open_call Hex; try done;
    case_decide; try done; intros _;
    repeat case_match; rstep; nbool;
    first [ right; lia | left; lia
          | destruct Hme as [Hme|Hme]; [left|right]; lia ].
Qed.

Lemma reachable_real_reachable s : reachable_real s -> reachable s.
Proof.
  induction 1 as [token rate admin s Hinit | env c s _ _ IH].
  - by apply (reachable_init token rate admin).
  - by apply reachable_step.
Qed.

(** X8. With real block timestamps a staking account always has both clocks
    set: [stakeStart] and [lastUpdate] are non-zero whenever [staked] is
    positive.  So the cycle clock is set exactly when something is staked,
    and the branch of [withdraw(uint256)] for an unset start is never
    taken. *)
Theorem staked_has_clocks (s : State) (user : address) :
  reachable_real s ->
  0 < staked (account_of s user) ->
  stakeStart (account_of s user) ≠ 0 /\ lastUpdate (account_of s user) ≠ 0.
Proof.
  intros Hr Hst.
  assert (H : cycle_started_inv s /\ committed_inv s).
  { clear user Hst.
    induction Hr as [token rate admin s Hinit | env c s Hnow _ [IH1 IH2]].
    - split; [|by apply (committed_init token rate admin)].
      unfold constructor in Hinit. destruct (token =? 0); [discriminate|].
      injection Hinit as <-. intros user. left. unfold account_of.
      cbn [accounts]. by rewrite lookup_empty.
    - split; [by apply cycle_started_step | by apply committed_step]. }
  destruct H as [H1 H2].
  destruct (H1 user), (H2 user); split; lia.
Qed.

Lemma staked_has_clocks_witness :
  stakeStart (account_of after_stake 7) ≠ 0 /\
  lastUpdate (account_of after_stake 7) ≠ 0.
Proof.
  apply staked_has_clocks.
  - apply reachable_real_step; [discriminate|].
    apply reachable_real_step; [discriminate|].
    apply (reachable_real_init 1 SCALE 9). reflexivity.
  - vm_compute. reflexivity.
Defined.

(** ** What a call leaves alone *)

(** X9. A completed call of a ledger operation touches no account but the
    caller's: the record of every other account is exactly what it was,
    and the staking token is the one set at construction. *)
Theorem call_touches_only_caller env c (s s' : State) l :
  execute env c s = Ok (s', l) ->
  STAKING_TOKEN s' = STAKING_TOKEN s /\
  forall user, user ≠ msg_sender env ->
    account_of s' user = account_of s user.
Proof.
  intros Hex.
  destruct c; open_call Hex; repeat split; try done;
    intros user Hne;
    rewrite ?account_of_set_totalStaked, ?account_of_set_rewardRate,
      ?account_of_set_paused, ?account_of_set_account;
    try done; case_decide; congruence.
Qed.

Lemma call_touches_only_caller_witness :
  STAKING_TOKEN after_stake = STAKING_TOKEN after_deposit /\
  forall user, user ≠ msg_sender (env_of 7 t0 true) ->
    account_of after_stake user = account_of after_deposit user.
Proof.
  apply (call_touches_only_caller (env_of 7 t0 true) (stakeCall 100)
           after_deposit after_stake [Emit (Staked 7 100); Emit (Stake 7 100)]).
  vm_compute. reflexivity.
Defined.

(** X10. Only an administrator changes the global switches: a completed call
    that changes [rewardRate] is a [setRewardRate] by an administrator to
    the value stored, and one that changes [paused] is a [pause] or
    [unpause] by an administrator; a caller who is not an administrator
    gets [Unauthorized] from all three. *)
Theorem switches_are_admin_only env c (s s' : State) l :
  (execute env c s = Ok (s', l) ->
   (rewardRate s' ≠ rewardRate s ->
    c = setRewardRateCall (rewardRate s') /\ msg_sender env ∈ admins s) /\
   (paused s' ≠ paused s ->
    (c = pauseCall \/ c = unpauseCall) /\ msg_sender env ∈ admins s)) /\
  (msg_sender env ∉ admins s ->
   forall newRate,
     execute env (setRewardRateCall newRate) s = Err (Unauthorized (msg_sender env)) /\
     execute env pauseCall s = Err (Unauthorized (msg_sender env)) /\
     execute env unpauseCall s = Err (Unauthorized (msg_sender env))).
Proof.
  split.
  - intros Hex.
    destruct c; open_ops Hex; follow Hex; injection Hex as <- <-;
      cbn [rewardRate paused set_account set_totalStaked set_rewardRate set_paused];
      split; intros Hne; try done;
      repeat match goal with
      | Hb : bool_decide _ = true |- _ => apply bool_decide_eq_true in Hb
      end; auto.
  - intros Hna newRate. cbn [execute].
    unfold setRewardRate, pause, unpause, onlyRole.
    rewrite bool_decide_eq_false_2 by done. done.
Qed.

Lemma switches_are_admin_only_witness :
  execute (env_of 7 t0 true) (setRewardRateCall 5) genesis
  = Err (Unauthorized 7).
Proof.
  exact (proj1 (proj2 (switches_are_admin_only (env_of 7 t0 true) pauseCall
                         genesis genesis [])
                  ltac:(vm_compute; discriminate) 5)).
Defined.

Lemma set_paused_restore (s : State) :
  set_paused (paused s) (set_paused (negb (paused s)) s) = s.
Proof. by destruct s. Qed.

(** X11. Suspending and resuming is a round trip: after a completed [pause],
    an [unpause] by an administrator completes and gives back exactly the
    state before the [pause]; likewise an [unpause] followed by a
    [pause]. *)
Theorem pause_unpause_round_trip env env' (s s1 : State) l :
  msg_sender env' ∈ admins s ->
  (execute env pauseCall s = Ok (s1, l) ->
   execute env' unpauseCall s1 = Ok (s, [Emit (Unpaused (msg_sender env'))])) /\
  (execute env unpauseCall s = Ok (s1, l) ->
   execute env' pauseCall s1 = Ok (s, [Emit (Paused (msg_sender env'))])).
Proof.
  intros Hadm. split; intros Hex; open_ops Hex; follow Hex;
    injection Hex as <- <-; cbn [execute];
    unfold pause, unpause, _pause, _unpause, whenNotPaused, onlyRole;
    cbn [admins paused set_paused];
    rewrite bool_decide_eq_true_2 by done;
    do 2 f_equal;
    match goal with
    | Hp : paused s = ?b |- _ =>
        rewrite <- (set_paused_restore s) at 2; rewrite Hp; reflexivity
    end.
Qed.

Lemma pause_unpause_round_trip_witness :
  execute (env_of 9 (t0 + 20) true) unpauseCall after_pause
  = Ok (after_stake, [Emit (Unpaused 9)]).
Proof.
  apply (proj1 (pause_unpause_round_trip (env_of 9 (t0 + 10) true)
                  (env_of 9 (t0 + 20) true) after_stake after_pause
                  [Emit (Paused 9)] ltac:(vm_compute; reflexivity))).
  vm_compute. reflexivity.
Defined.

(** ** Staking and unstaking *)

(** A commit at the time of the last checkpoint does nothing. *)
Lemma updateRewards_at_lastUpdate rate (a : Account) user :
  _updateRewards rate (lastUpdate a) a user = Ok (a, []).
Proof.
  destruct (N.eq_dec (lastUpdate a) 0) as [Hz|Hnz].
  - unfold _updateRewards. rewrite Hz. cbn [N.eqb].
    rewrite <- Hz. by rewrite set_lastUpdate_same.
  - by apply updateRewards_same_time.
Qed.

(** The record a completed [stake] leaves, in full. *)
Lemma stake_inv env (amount : N) (s s' : State) l :
  execute env (stakeCall amount) s = Ok (s', l) ->
  let a := account_of s (msg_sender env) in
  let a' := account_of s' (msg_sender env) in
  exists a1 evs,
    _updateRewards (rewardRate s) (block_timestamp env) a (msg_sender env)
      = Ok (a1, evs) /\
    a' = set_staked (staked a + amount)
           (if staked a =? 0 then set_stakeStart (block_timestamp env) a1 else a1) /\
    deposited a' = deposited a /\
    staked a' = staked a + amount /\
    rewardsAccrued a' = rewardsAccrued a1 /\
    stakeStart a' = (if staked a =? 0 then block_timestamp env else stakeStart a) /\
    lastUpdate a' = block_timestamp env /\
    totalStaked s' = totalStaked s + amount /\
    paused s = false /\ amount ≠ 0 /\
    amount <= deposited a - staked a /\
    l = evs ++ [Emit (Staked (msg_sender env) amount);
                Emit (Stake (msg_sender env) amount)].
Proof.
  intros Hex. cbv zeta. open_ops Hex. follow Hex. injection Hex as <- <-.
  rewrite account_of_set_totalStaked, account_of_set_account.
  case_decide; [|done]. subst.
  set (acct := account_of s (msg_sender env)) in *.
  match goal with
  | Hu : _updateRewards _ _ _ _ = Ok (?x, ?y) |- _ =>
      exists x, y; split; [reflexivity|];
      destruct (updateRewards_frame _ _ _ _ _ _ Hu) as (Hd & Hs & Hss & Hlu & _)
  end.
  nbool. rewrite Hs in *.
  destruct (N.eqb_spec (staked acct) 0); rstep; rewrite ?Hs;
    repeat split; try done; lia.
Qed.

(** A user operation keeps the global switches. *)
Lemma user_call_keeps_switches env c (s s' : State) l :
  execute env c s = Ok (s', l) ->
  match c with
  | setRewardRateCall _ | pauseCall | unpauseCall => True
  | _ => rewardRate s' = rewardRate s /\ paused s' = paused s
  end.
Proof.
  intros Hex. destruct c; try done;
    open_ops Hex; follow Hex; injection Hex as <- <-; by split.
Qed.

(** X12. What a completed [stake] did to the caller's record.  The deposit is
    untouched and the stake grows by the amount.  The rewards credited are
    those of the commit of the old stake, so the amount just staked earns
    nothing for the time before the call.  The cycle clock starts now for
    a first stake and is left alone by a top-up. *)
Theorem stake_effect env (amount : N) (s s' : State) l :
  execute env (stakeCall amount) s = Ok (s', l) ->
  let a := account_of s (msg_sender env) in
  let a' := account_of s' (msg_sender env) in
  exists a1 evs,
    _updateRewards (rewardRate s) (block_timestamp env) a (msg_sender env)
      = Ok (a1, evs) /\
    a' = set_staked (staked a + amount)
           (if staked a =? 0 then set_stakeStart (block_timestamp env) a1 else a1) /\
    deposited a' = deposited a /\
    staked a' = staked a + amount /\
    rewardsAccrued a' = rewardsAccrued a1 /\
    stakeStart a' = (if staked a =? 0 then block_timestamp env else stakeStart a) /\
    lastUpdate a' = block_timestamp env /\
    totalStaked s' = totalStaked s + amount /\
    paused s = false /\ amount ≠ 0 /\
    amount <= deposited a - staked a /\
    l = evs ++ [Emit (Staked (msg_sender env) amount);
                Emit (Stake (msg_sender env) amount)].
Proof. exact (stake_inv env amount s s' l). Qed.

Lemma stake_effect_witness :
  exists a1 evs,
    _updateRewards (rewardRate after_deposit) t0 (account_of after_deposit 7) 7
      = Ok (a1, evs) /\
    account_of after_stake 7
    = set_staked (staked (account_of after_deposit 7) + 100)
        (if staked (account_of after_deposit 7) =? 0
         then set_stakeStart t0 a1 else a1) /\
    deposited (account_of after_stake 7) = deposited (account_of after_deposit 7) /\
    staked (account_of after_stake 7) = staked (account_of after_deposit 7) + 100 /\
    rewardsAccrued (account_of after_stake 7) = rewardsAccrued a1 /\
    stakeStart (account_of after_stake 7)
    = (if staked (account_of after_deposit 7) =? 0 then t0
       else stakeStart (account_of after_deposit 7)) /\
    lastUpdate (account_of after_stake 7) = t0 /\
    totalStaked after_stake = totalStaked after_deposit + 100 /\
    paused after_deposit = false /\ 100 ≠ 0 /\
    100 <= deposited (account_of after_deposit 7)
           - staked (account_of after_deposit 7) /\
    [Emit (Staked 7 100); Emit (Stake 7 100)]
    = evs ++ [Emit (Staked 7 100); Emit (Stake 7 100)].
Proof.
  apply (stake_effect (env_of 7 t0 true) 100 after_deposit after_stake
           [Emit (Staked 7 100); Emit (Stake 7 100)]).
  vm_compute. reflexivity.
Defined.

(** X13. Staking and unstaking the same amount in one block earns nothing:
    after a completed [stake], an [unstake] of the same amount at the same
    timestamp completes, restores [totalStaked], and leaves the caller's
    record exactly as a bare commit of the original record would have. *)
Theorem stake_unstake_round_trip env (amount : N) (s s1 : State) l1 :
  (staked (account_of s (msg_sender env)) = 0 ->
   stakeStart (account_of s (msg_sender env)) = 0) ->
  execute env (stakeCall amount) s = Ok (s1, l1) ->
  exists s2 a1 evs,
    execute env (unstakeCall amount) s1
      = Ok (s2, [Emit (Unstaked (msg_sender env) amount)]) /\
    _updateRewards (rewardRate s) (block_timestamp env)
      (account_of s (msg_sender env)) (msg_sender env) = Ok (a1, evs) /\
    account_of s2 (msg_sender env) = a1 /\
    totalStaked s2 = totalStaked s.
Proof.
  intros Hcycle Hex.
  destruct (stake_inv _ _ _ _ _ Hex)
    as (a1 & evs & Hup & Ha' & Hd & Hs & Hra & Hss & Hlu & Htot & Hp & Hne & _).
  destruct (user_call_keeps_switches _ _ _ _ _ Hex) as [Hrate Hpaused].
  rewrite Hp in Hpaused.
  destruct (updateRewards_frame _ _ _ _ _ _ Hup) as (_ & Hs1' & Hss1 & Hlu1 & _).
  set (b := account_of s1 (msg_sender env)) in *.
  assert (Hupb : _updateRewards (rewardRate s1) (block_timestamp env) b
                   (msg_sender env) = Ok (b, [])).
  { rewrite <- Hlu. apply updateRewards_at_lastUpdate. }
  do 3 eexists. split; [|split; [exact Hup|]].
  - cbn [execute]. unfold unstake, whenNotPaused, nonReentrant, checked_sub.
    rewrite Hpaused. fold b. rewrite Hupb. run_tests. reflexivity.
  - split.
    + rewrite account_of_set_totalStaked, account_of_set_account.
      case_decide; [|done]. rewrite Hs.
      replace (staked (account_of s (msg_sender env)) + amount - amount)
        with (staked (account_of s (msg_sender env))) by lia.
      rewrite Ha'.
      destruct (N.eqb_spec (staked (account_of s (msg_sender env))) 0) as [Hz|Hnz].
      * destruct a1 as [d st ra lu ss rm].
        cbn [staked stakeStart] in Hs1', Hss1. subst st ss.
        rewrite Hz, (Hcycle Hz). reflexivity.
      * destruct a1 as [d st ra lu ss rm].
        cbn [staked stakeStart] in Hs1', Hss1. subst st ss.
        destruct (N.eqb_spec (staked (account_of s (msg_sender env))) 0);
          [done|reflexivity].
    + cbn [totalStaked set_totalStaked]. lia.
Qed.

Lemma stake_unstake_round_trip_witness :
  exists s2 a1 evs,
    execute (env_of 7 t0 true) (unstakeCall 100) after_stake
      = Ok (s2, [Emit (Unstaked 7 100)]) /\
    _updateRewards (rewardRate after_deposit) t0 (account_of after_deposit 7) 7
      = Ok (a1, evs) /\
    account_of s2 7 = a1 /\
    totalStaked s2 = totalStaked after_deposit.
Proof.
  apply (stake_unstake_round_trip (env_of 7 t0 true) 100 after_deposit
           after_stake [Emit (Staked 7 100); Emit (Stake 7 100)]).
  - vm_compute. reflexivity.
  - vm_compute. reflexivity.
Defined.

(** ** Depositing and withdrawing principal *)

Lemma execute_reachable env c (s s' : State) l :
  reachable s -> execute env c s = Ok (s', l) -> reachable s'.
Proof.
  intros Hr Hex. pose proof (reachable_step env c s Hr) as H.
  unfold transact in H. by rewrite Hex in H.
Qed.

(** The record a completed principal deposit leaves, in full. *)
Lemma deposit_inv env (amount : N) (s s' : State) l :
  execute env (depositPrincipal amount) s = Ok (s', l) ->
  exists a1 evs,
    _updateRewards (rewardRate s) (block_timestamp env)
      (account_of s (msg_sender env)) (msg_sender env) = Ok (a1, evs) /\
    account_of s' (msg_sender env)
    = set_deposited (deposited (account_of s (msg_sender env)) + amount) a1 /\
    totalStaked s' = totalStaked s /\
    STAKING_TOKEN s' = STAKING_TOKEN s /\
    deposited (account_of s (msg_sender env)) + amount <= MAX_UINT256 /\
    amount ≠ 0 /\
    l = evs ++ [Moved (TransferFrom (STAKING_TOKEN s) (msg_sender env) amount);
                Emit (Deposited (msg_sender env) amount)].
Proof.
  intros Hex. open_ops Hex. follow Hex. injection Hex as <- <-.
  rewrite account_of_set_account. case_decide; [|done]. subst.
  match goal with
  | Hu : _updateRewards _ _ _ _ = Ok (?x, ?y) |- _ =>
      exists x, y; split; [reflexivity|];
      destruct (updateRewards_frame _ _ _ _ _ _ Hu) as (Hd & _)
  end.
  nbool. rewrite Hd in *. repeat split; try done.
Qed.

(** X14. Depositing and withdrawing the same principal in one block is a round
    trip: after a completed deposit, a principal withdrawal of the same
    amount without reward claim at the same timestamp completes when the
    custody pays out, pays exactly the amount, and leaves the caller's
    record exactly as a bare commit of the original record would have. *)
Theorem deposit_withdraw_round_trip env (amount : N) (s s1 : State) l1 :
  staked (account_of s (msg_sender env))
    <= deposited (account_of s (msg_sender env)) ->
  execute env (depositPrincipal amount) s = Ok (s1, l1) ->
  custody env (TransferTo (STAKING_TOKEN s) (msg_sender env) amount) = true ->
  exists s2 a1 evs,
    execute env (withdrawPrincipal amount false) s1
      = Ok (s2, [Moved (TransferTo (STAKING_TOKEN s) (msg_sender env) amount);
                 Emit (Withdrawn (msg_sender env) amount 0)]) /\
    _updateRewards (rewardRate s) (block_timestamp env)
      (account_of s (msg_sender env)) (msg_sender env) = Ok (a1, evs) /\
    account_of s2 (msg_sender env) = a1 /\
    totalStaked s2 = totalStaked s.
Proof.
  intros Hsolv Hex Hcust.
  destruct (deposit_inv _ _ _ _ _ Hex)
    as (a1 & evs & Hup & Ha' & Htot & Htok & Hmax & Hne & _).
  destruct (user_call_keeps_switches _ _ _ _ _ Hex) as [Hrate _].
  destruct (updateRewards_frame _ _ _ _ _ _ Hup) as (Hd1 & Hs1 & _ & Hlu1 & _).
  set (b := account_of s1 (msg_sender env)) in *.
  assert (Hlub : lastUpdate b = block_timestamp env) by (by rewrite Ha').
  assert (Hupb : _updateRewards (rewardRate s1) (block_timestamp env) b
                   (msg_sender env) = Ok (b, [])).
  { rewrite <- Hlub. apply updateRewards_at_lastUpdate. }
  assert (Hdb : deposited b = deposited (account_of s (msg_sender env)) + amount)
    by (by rewrite Ha').
  assert (Hsb : staked b = staked (account_of s (msg_sender env)))
    by (by rewrite Ha').
  exists (set_account (msg_sender env)
            (set_deposited (deposited b - amount) b) s1), a1, evs.
  split; [|split; [exact Hup|split]].
  - rewrite (withdraw_uint256_bool_ok env amount false s1 b []); fold b;
      rewrite ?Htok, ?N.add_0_r; try done; lia.
  - rewrite account_of_set_account. case_decide; [|done].
    rewrite Hdb. replace (deposited (account_of s (msg_sender env)) + amount - amount)
      with (deposited a1) by lia.
    rewrite Ha'. destruct a1; reflexivity.
  - exact Htot.
Qed.

Lemma deposit_withdraw_round_trip_witness :
  exists s2 a1 evs,
    execute (env_of 7 t0 true) (withdrawPrincipal 100 false) after_deposit
      = Ok (s2, [Moved (TransferTo (STAKING_TOKEN genesis) 7 100);
                 Emit (Withdrawn 7 100 0)]) /\
    _updateRewards (rewardRate genesis) t0 (account_of genesis 7) 7
      = Ok (a1, evs) /\
    account_of s2 7 = a1 /\
    totalStaked s2 = totalStaked genesis.
Proof.
  apply (deposit_withdraw_round_trip (env_of 7 t0 true) 100 genesis
           after_deposit
           [Moved (TransferFrom 1 7 100); Emit (Deposited 7 100)]).
  - vm_compute. discriminate.
  - vm_compute. reflexivity.
  - reflexivity.
Defined.

(** ** Rejections of the gated operations *)

(** X15. The guards of the four gated operations, in the order the code tests
    them.  While suspended every one of them fails with the pause error,
    whatever its arguments.  Otherwise a zero amount fails
    [InvalidAmount]; a generic deposit of the null asset fails
    [ZeroAddress]; a stake above the idle balance fails
    [InsufficientBalance (idle, amount)] and an unstake above the stake
    fails [InsufficientBalance (staked, amount)]. *)
Theorem gated_operation_guards env (s : State) :
  let a := account_of s (msg_sender env) in
  (paused s = true ->
   forall amount asset,
     execute env (depositPrincipal amount) s = Err EnforcedPause /\
     execute env (depositGeneric asset amount) s = Err EnforcedPause /\
     execute env (stakeCall amount) s = Err EnforcedPause /\
     execute env (unstakeCall amount) s = Err EnforcedPause) /\
  (paused s = false ->
   (forall asset,
      execute env (depositPrincipal 0) s = Err InvalidAmount /\
      execute env (depositGeneric asset 0) s = Err InvalidAmount /\
      execute env (stakeCall 0) s = Err InvalidAmount /\
      execute env (unstakeCall 0) s = Err InvalidAmount) /\
   (forall amount, amount ≠ 0 ->
      execute env (depositGeneric 0 amount) s = Err ZeroAddress /\
      (staked a <= deposited a -> deposited a - staked a < amount ->
       execute env (stakeCall amount) s
       = Err (InsufficientBalance (deposited a - staked a) amount)) /\
      (staked a < amount ->
       execute env (unstakeCall amount) s
       = Err (InsufficientBalance (staked a) amount)))).
Proof.
  intros a. split; [|split].
  - intros Hp amount asset. cbn [execute].
    unfold deposit_uint256, deposit_address_uint256, stake, unstake,
      whenNotPaused. by rewrite Hp.
  - intros asset. cbn [execute].
    unfold deposit_uint256, deposit_address_uint256, stake, unstake,
      whenNotPaused, nonReentrant. by rewrite H.
  - intros amount Hne. cbn [execute].
    unfold deposit_address_uint256, stake, unstake, whenNotPaused,
      nonReentrant, checked_sub. rewrite H. fold a.
    destruct (N.eqb_spec amount 0) as [|_]; [done|].
    split; [reflexivity|]. split.
    + intros Hsolv Hidle. run_tests. reflexivity.
    + intros Hlt. run_tests. reflexivity.
Qed.

Lemma gated_operation_guards_witness :
  execute (env_of 7 (t0 + 20) true) (unstakeCall 0) after_pause
  = Err EnforcedPause.
Proof.
  exact (proj2 (proj2 (proj2
    (proj1 (gated_operation_guards (env_of 7 (t0 + 20) true) after_pause)
       ltac:(vm_compute; reflexivity) 0 0)))).
Defined.

(** ** The annual-rate withdrawal, continued *)

(** What a completed annual-rate withdrawal did, in full. *)
Lemma withdraw_uint256_inv env (amount : N) (s s' : State) l :
  execute env (withdrawAnnual amount) s = Ok (s', l) ->
  let a := account_of s (msg_sender env) in
  let now := block_timestamp env in
  let rewards := annual_reward amount (now - cycle_start now a) in
  amount ≠ 0 /\ amount <= staked a /\ amount <= deposited a /\
  amount <= totalStaked s /\ cycle_start now a <= now /\
  amount * ANNUAL_RATE_BPS <= MAX_UINT256 /\
  amount + rewards <= MAX_UINT256 /\
  s' = set_totalStaked (totalStaked s - amount)
         (set_account (msg_sender env)
            (mkAccount (deposited a - amount) (staked a - amount)
               (rewardsAccrued a) (lastUpdate a)
               (if 0 <? staked a - amount then now else 0)
               (rewardRemainder a)) s) /\
  l = [Moved (TransferTo (STAKING_TOKEN s) (msg_sender env) (amount + rewards));
       Emit (Withdraw (msg_sender env) amount rewards)].
Proof.
  intros Hex. cbv zeta. unfold annual_reward, cycle_start.
  open_ops Hex. follow Hex; injection Hex as <- <-; nbool;
    repeat split; try done; try lia;
    destruct (N.ltb_spec 0
      (staked (account_of s (msg_sender env)) - amount)); reflexivity.
Qed.

(** X16. The annual-rate path leaves the emission state alone and restarts the
    cycle clock: a completed call lowers [deposited], [staked] and
    [totalStaked] by the amount, does not touch [rewardsAccrued],
    [lastUpdate] or [rewardRemainder], and sets [stakeStart] to now if
    something stays staked and to 0 otherwise. *)
Theorem annual_withdrawal_effect env (amount : N) (s s' : State) l :
  execute env (withdrawAnnual amount) s = Ok (s', l) ->
  let a := account_of s (msg_sender env) in
  let a' := account_of s' (msg_sender env) in
  amount ≠ 0 /\ amount <= staked a /\
  deposited a' = deposited a - amount /\
  staked a' = staked a - amount /\
  totalStaked s' = totalStaked s - amount /\
  rewardsAccrued a' = rewardsAccrued a /\
  lastUpdate a' = lastUpdate a /\
  rewardRemainder a' = rewardRemainder a /\
  stakeStart a' = (if 0 <? staked a' then block_timestamp env else 0).
Proof.
  intros Hex. cbv zeta.
  destruct (withdraw_uint256_inv _ _ _ _ _ Hex)
    as (Hne & Hle & _ & _ & _ & _ & _ & -> & _).
  rewrite account_of_set_totalStaked, account_of_set_account.
  case_decide; [|done]. repeat split; done.
Qed.

Lemma annual_withdrawal_effect_witness :
  50 ≠ 0 /\ 50 <= staked (account_of after_stake 7) /\
  deposited (account_of
    (fst (transact (env_of 7 (t0 + 2592000) true) (withdrawAnnual 50) after_stake)) 7)
  = deposited (account_of after_stake 7) - 50.
Proof.
  destruct (annual_withdrawal_effect (env_of 7 (t0 + 2592000) true) 50
              after_stake
              (fst (transact (env_of 7 (t0 + 2592000) true) (withdrawAnnual 50)
                      after_stake))
              [Moved (TransferTo 1 7 50); Emit (Withdraw 7 50 0)]
              ltac:(vm_compute; reflexivity))
    as (H1 & H2 & H3 & _).
  exact (conj H1 (conj H2 H3)).
Defined.

(** X17. A second annual-rate withdrawal in the same block earns nothing: the
    first one restarted the cycle clock, so whatever time had been staked,
    the second pays exactly its amount with a reward of 0. *)
Theorem second_annual_withdrawal_earns_nothing env (amount amount2 : N)
    (s s1 : State) l1 :
  reachable s ->
  execute env (withdrawAnnual amount) s = Ok (s1, l1) ->
  amount2 ≠ 0 ->
  amount2 <= staked (account_of s1 (msg_sender env)) ->
  amount2 * ANNUAL_RATE_BPS <= MAX_UINT256 ->
  custody env (TransferTo (STAKING_TOKEN s) (msg_sender env) amount2) = true ->
  exists s2,
    execute env (withdrawAnnual amount2) s1
    = Ok (s2, [Moved (TransferTo (STAKING_TOKEN s) (msg_sender env) amount2);
               Emit (Withdraw (msg_sender env) amount2 0)]).
Proof.
  intros Hr Hex Hne2 Hle2 Hmul Hcust.
  pose proof (execute_reachable _ _ _ _ _ Hr Hex) as Hr1.
  destruct (reachable_accounts_inv s1 Hr1 (msg_sender env)) as (Hsolv & _).
  destruct (reachable_bounds_inv s1 Hr1) as (_ & Hdep).
  specialize (Hdep (msg_sender env)).
  pose proof (staked_le_total s1 (msg_sender env) (reachable_total_inv s1 Hr1))
    as Htot.
  destruct (withdraw_uint256_inv _ _ _ _ _ Hex)
    as (_ & _ & _ & _ & _ & _ & _ & Hs1 & _).
  assert (Htok : STAKING_TOKEN s1 = STAKING_TOKEN s) by (by rewrite Hs1).
  assert (Hss : stakeStart (account_of s1 (msg_sender env)) = block_timestamp env).
  { revert Hle2. rewrite Hs1.
    rewrite account_of_set_totalStaked, account_of_set_account.
    case_decide; [|done]. rstep.
    destruct (N.ltb_spec 0 (staked (account_of s (msg_sender env)) - amount));
      [done|lia]. }
  set (b := account_of s1 (msg_sender env)) in *.
  assert (Hdur : block_timestamp env - cycle_start (block_timestamp env) b = 0).
  { unfold cycle_start. rewrite Hss.
    destruct (block_timestamp env =? 0); lia. }
  assert (Hrew : annual_reward amount2 0 = 0).
  { unfold annual_reward. rewrite N.mul_0_r. reflexivity. }
  eexists.
  rewrite (withdraw_uint256_ok env amount2 s1); fold b;
    rewrite ?Hdur, ?Hrew, ?N.add_0_r, ?N.mul_0_r, ?Htok; try done; lia.
Qed.

Lemma second_annual_withdrawal_earns_nothing_witness :
  exists s2,
    execute (env_of 7 (t0 + 2592000) true) (withdrawAnnual 10)
      (fst (transact (env_of 7 (t0 + 2592000) true) (withdrawAnnual 50)
              after_stake))
    = Ok (s2, [Moved (TransferTo (STAKING_TOKEN after_stake) 7 10);
               Emit (Withdraw 7 10 0)]).
Proof.
  apply (second_annual_withdrawal_earns_nothing
           (env_of 7 (t0 + 2592000) true) 50 10 after_stake _
           [Moved (TransferTo 1 7 50); Emit (Withdraw 7 50 0)]).
  - apply reachable_step, reachable_step, (reachable_init 1 SCALE 9).
    reflexivity.
  - vm_compute. reflexivity.
  - discriminate.
  - apply N.leb_le. vm_compute. reflexivity.
  - apply N.leb_le. vm_compute. reflexivity.
  - reflexivity.
Defined.

Lemma annual_reward_pro_rata (amount duration : N) :
  annual_reward amount duration = amount * duration / (20 * SECONDS_PER_YEAR).
Proof.
  unfold annual_reward.
  replace (amount * ANNUAL_RATE_BPS * duration)
    with (amount * duration * ANNUAL_RATE_BPS) by lia.
  replace (SECONDS_PER_YEAR * 10000)
    with (20 * SECONDS_PER_YEAR * ANNUAL_RATE_BPS)
    by (unfold ANNUAL_RATE_BPS; lia).
  apply N.Div0.div_mul_cancel_r. discriminate.
Qed.

(** X18. The annual-rate reward is 5% a year pro rata, rounded down: a
    completed call pays the amount plus
    [amount * duration / (20 * 365 days)], where the duration runs from
    the cycle start to now; this never exceeds the exact pro-rata share,
    and after exactly one year it is [amount / 20]. *)
Theorem annual_reward_is_five_percent env (amount : N) (s s' : State) l :
  execute env (withdrawAnnual amount) s = Ok (s', l) ->
  let duration :=
    block_timestamp env
    - cycle_start (block_timestamp env) (account_of s (msg_sender env)) in
  let r := amount * duration / (20 * 31536000) in
  l = [Moved (TransferTo (STAKING_TOKEN s) (msg_sender env) (amount + r));
       Emit (Withdraw (msg_sender env) amount r)] /\
  r * (20 * 31536000) <= amount * duration /\
  (duration = 31536000 -> r = amount / 20).
Proof.
  intros Hex duration r.
  destruct (withdraw_uint256_inv _ _ _ _ _ Hex)
    as (_ & _ & _ & _ & _ & _ & _ & _ & ->).
  rewrite annual_reward_pro_rata. fold duration.
  change (20 * SECONDS_PER_YEAR) with (20 * 31536000). fold r.
  split; [reflexivity|]. split.
  - subst r. rewrite N.mul_comm. apply N.Div0.mul_div_le.
  - intros Hd. subst r. rewrite Hd.
    apply N.Div0.div_mul_cancel_r. discriminate.
Qed.

Lemma annual_reward_is_five_percent_witness :
  [Moved (TransferTo 1 7 50); Emit (Withdraw 7 50 0)]
  = [Moved (TransferTo (STAKING_TOKEN after_stake) 7
              (50 + 50 * (t0 + 2592000 - cycle_start (t0 + 2592000)
                                           (account_of after_stake 7))
                    / (20 * 31536000)));
     Emit (Withdraw 7 50
             (50 * (t0 + 2592000 - cycle_start (t0 + 2592000)
                                     (account_of after_stake 7))
              / (20 * 31536000)))].
Proof.
  apply (annual_reward_is_five_percent (env_of 7 (t0 + 2592000) true) 50
           after_stake
           (fst (transact (env_of 7 (t0 + 2592000) true) (withdrawAnnual 50)
                   after_stake))).
  vm_compute. reflexivity.
Defined.

(** ** Effects of a call *)

Lemma sum_effects_app f (l1 l2 : list Effect) :
  sum_effects f (l1 ++ l2) = sum_effects f l1 + sum_effects f l2.
Proof.
  induction l1 as [|e l1 IH]; cbn [app sum_effects fold_right].
  - reflexivity.
  - fold (sum_effects f (l1 ++ l2)). fold (sum_effects f l1). lia.
Qed.

Lemma transfers_app (l1 l2 : list Effect) :
  transfers (l1 ++ l2) = transfers l1 ++ transfers l2.
Proof.
  induction l1 as [|[e|t] l1 IH]; cbn [app transfers]; by rewrite ?IH.
Qed.

(** A commit records an accrual exactly when it credits rewards, and for
    exactly the amount credited. *)
Lemma updateRewards_events rate now (a a' : Account) user evs :
  _updateRewards rate now a user = Ok (a', evs) ->
  (evs = [] /\ rewardsAccrued a' = rewardsAccrued a) \/
  (exists n, evs = [Emit (RewardsAccrued user n)] /\ 0 < n /\
             rewardsAccrued a' = rewardsAccrued a + n).
Proof.
  intros H. unfold _updateRewards, checked_add, checked_sub, checked_mul in H.
  follow H; injection H as <- <-; nbool; rstep; eauto.
Qed.

(** X19. The logged accrual events are exactly the rewards a commit credits. *)
Theorem commit_logs_what_it_credits rate now (a a' : Account) user evs :
  _updateRewards rate now a user = Ok (a', evs) ->
  rewardsAccrued a' = rewardsAccrued a + sum_effects accrued evs /\
  (evs = [] <-> rewardsAccrued a' = rewardsAccrued a) /\
  transfers evs = [] /\
  forall e, In e evs -> exists n, e = Emit (RewardsAccrued user n) /\ 0 < n.
Proof.
  intros H.
  destruct (updateRewards_events _ _ _ _ _ _ H)
    as [(-> & ->)|(n & -> & Hn & ->)].
  - repeat split; try done. cbn. lia.
  - cbn [sum_effects fold_right accrued transfers]. repeat split.
    + lia.
    + discriminate.
    + lia.
    + intros e [<-|[]]. eauto.
Qed.

Lemma commit_logs_what_it_credits_witness :
  rewardsAccrued (mkAccount 100 100 6000 (t0 + 60) t0 0)
  = rewardsAccrued (mkAccount 100 100 0 t0 t0 0)
    + sum_effects accrued [Emit (RewardsAccrued 7 6000)].
Proof.
  apply (commit_logs_what_it_credits SCALE (t0 + 60)
           (mkAccount 100 100 0 t0 t0 0) _ 7 [Emit (RewardsAccrued 7 6000)]).
  vm_compute. reflexivity.
Defined.

(** Opens a completed call like [open_call], keeping for each commit both
    what it leaves alone and what it logs. *)
Ltac open_call_logged Hex :=
  open_ops Hex; follow Hex; injection Hex as <- <-;
  repeat match goal with
  | Hup : _updateRewards _ _ _ _ = Ok _ |- _ =>
      let Hev := fresh "Hev" in
      pose proof (updateRewards_events _ _ _ _ _ _ Hup) as Hev;
      apply updateRewards_frame in Hup;
      destruct Hup as (? & ? & ? & ? & ? & ?);
      destruct Hev as [(-> & ?)|(? & -> & ? & ?)]
  end;
  rewrite ?account_of_set_totalStaked, ?account_of_set_rewardRate,
    ?account_of_set_paused, ?account_of_set_account.

(** X20. A call moves tokens only for its caller, and at most once: a deposit
    pulls the amount of the deposited asset from the caller, a withdrawal
    pushes staking tokens to the caller, at least the principal withdrawn,
    and no other operation moves anything. *)
Theorem call_moves_tokens_only_for_caller env c (s s' : State) l :
  execute env c s = Ok (s', l) ->
  match c with
  | depositPrincipal amount =>
      transfers l = [TransferFrom (STAKING_TOKEN s) (msg_sender env) amount]
  | depositGeneric asset amount =>
      transfers l = [TransferFrom asset (msg_sender env) amount]
  | withdrawPrincipal amount _ | withdrawAnnual amount =>
      exists rewards,
        transfers l
        = [TransferTo (STAKING_TOKEN s) (msg_sender env) (amount + rewards)]
  | _ => transfers l = []
  end.
Proof.
  intros Hex.
  destruct c; open_call_logged Hex;
    rewrite ?transfers_app; cbn [transfers app]; eauto.
Qed.

Lemma call_moves_tokens_only_for_caller_witness :
  transfers [Emit (Staked 7 100); Emit (Stake 7 100)] = [].
Proof.
  apply (call_moves_tokens_only_for_caller (env_of 7 t0 true) (stakeCall 100)
           after_deposit after_stake).
  vm_compute. reflexivity.
Defined.

(** X21. The events are a faithful journal of the caller's record: for every
    completed call, the principal, the stake and the accrued rewards
    after the call are those before it plus what the events report as
    credited, staked and accrued, minus what they report as released,
    unstaked and claimed; and the tokens transferred are the tokens
    reported. *)
Theorem events_journal_the_ledger env c (s s' : State) l :
  execute env c s = Ok (s', l) ->
  let a := account_of s (msg_sender env) in
  let a' := account_of s' (msg_sender env) in
  deposited a' + sum_effects released l
    = deposited a + sum_effects credited l /\
  staked a' + sum_effects stake_removed l
    = staked a + sum_effects stake_added l /\
  rewardsAccrued a' + sum_effects claimed l
    = rewardsAccrued a + sum_effects accrued l /\
  sum_effects paid l = sum_effects paid_reported l /\
  sum_effects pulled l = sum_effects pulled_reported l.
Proof.
  intros Hex. cbv zeta.
  destruct c; open_call_logged Hex;
    try (case_decide; [|done]);
    rewrite ?sum_effects_app;
    cbn [sum_effects fold_right credited released stake_added stake_removed
         accrued claimed paid paid_reported pulled pulled_reported];
    repeat case_match; rstep; nbool; repeat split; lia.
Qed.

Lemma events_journal_the_ledger_witness :
  deposited (account_of after_stake 7)
    + sum_effects released [Emit (Staked 7 100); Emit (Stake 7 100)]
  = deposited (account_of after_deposit 7)
    + sum_effects credited [Emit (Staked 7 100); Emit (Stake 7 100)].
Proof.
  apply (events_journal_the_ledger (env_of 7 t0 true) (stakeCall 100)
           after_deposit after_stake).
  vm_compute. reflexivity.
Defined.

(** ** Claiming and unstaking everything *)

(** What a completed principal withdrawal did, in full. *)
Lemma withdraw_uint256_bool_inv env principal (claim : bool) (s s' : State) l :
  execute env (withdrawPrincipal principal claim) s = Ok (s', l) ->
  exists a1 evs,
    _updateRewards (rewardRate s) (block_timestamp env)
      (account_of s (msg_sender env)) (msg_sender env) = Ok (a1, evs) /\
    principal <= deposited (account_of s (msg_sender env))
                 - staked (account_of s (msg_sender env)) /\
    s' = set_account (msg_sender env)
           (set_deposited (deposited (account_of s (msg_sender env)) - principal)
              (if claim then set_rewardsAccrued 0 a1 else a1)) s /\
    l = evs ++ [Moved (TransferTo (STAKING_TOKEN s) (msg_sender env)
                         (principal + (if claim then rewardsAccrued a1 else 0)));
                Emit (Withdrawn (msg_sender env) principal
                        (if claim then rewardsAccrued a1 else 0))].
Proof.
  intros Hex. open_ops Hex. follow Hex; injection Hex as <- <-; subst;
    match goal with
    | Hu : _updateRewards _ _ _ _ = Ok (?x, ?y) |- _ =>
        exists x, y; split; [reflexivity|];
        destruct (updateRewards_frame _ _ _ _ _ _ Hu) as (Hd & _)
    end;
    nbool; rstep; rewrite <- ?Hd; (split; [lia|]); split; try reflexivity.
  all: assert (principal = 0) as -> by lia; rewrite N.sub_0_r.
  - change (deposited a0) with (deposited (set_rewardsAccrued 0 a0)) at 1.
    by rewrite set_deposited_same.
  - by rewrite set_deposited_same.
Qed.

(** X22. A claim pays what the view shows: when [pendingRewards] at the time of
    the call returns [r], a completed principal withdrawal with reward
    claim pays the principal plus exactly [r], stores no accrued rewards,
    and leaves nothing pending at that time. *)
Theorem claim_pays_pending env principal (s s' : State) l r :
  reachable s ->
  staked (account_of s (msg_sender env)) = 0 \/
    lastUpdate (account_of s (msg_sender env)) ≠ 0 ->
  pendingRewards s (block_timestamp env) (msg_sender env) = Ok r ->
  execute env (withdrawPrincipal principal true) s = Ok (s', l) ->
  transfers l = [TransferTo (STAKING_TOKEN s) (msg_sender env) (principal + r)] /\
  rewardsAccrued (account_of s' (msg_sender env)) = 0 /\
  pendingRewards s' (block_timestamp env) (msg_sender env) = Ok 0.
Proof.
  intros Hr Hcom Hpend Hex.
  pose proof (reachable_accounts_inv s Hr (msg_sender env)) as Hinv.
  destruct (reachable_accounts_inv s' (execute_reachable _ _ _ _ _ Hr Hex)
              (msg_sender env)) as (_ & _ & Hrem').
  destruct (withdraw_uint256_bool_inv _ _ _ _ _ _ Hex)
    as (a1 & evs & Hup & _ & Hs' & ->).
  assert (Hsr : staked (account_of s (msg_sender env)) * rewardRate s
                <= MAX_UINT256).
  { destruct (pendingRewards_inv _ _ _ _ Hpend) as [(-> & _)|(_ & _ & H & _)];
      [cbn; lia|exact H]. }
  rewrite (pendingRewards_of_commit s _ _ a1 evs Hinv Hcom Hsr Hup) in Hpend.
  injection Hpend as <-.
  destruct (updateRewards_events _ _ _ _ _ _ Hup) as [(-> & _)|(n & -> & _)];
    (split; [reflexivity|]).
  all: destruct (updateRewards_frame _ _ _ _ _ _ Hup) as (_ & Hst & _ & Hlu & _).
  all: assert (Ha' : account_of s' (msg_sender env)
                 = set_deposited
                     (deposited (account_of s (msg_sender env)) - principal)
                     (set_rewardsAccrued 0 a1))
         by (rewrite Hs', account_of_set_account; by case_decide).
  all: split; [by rewrite Ha'|].
  all: assert (Hrate : rewardRate s' = rewardRate s) by (by rewrite Hs').
  all: assert (Hstb : staked (account_of s' (msg_sender env))
                      = staked (account_of s (msg_sender env)))
         by (by rewrite Ha').
  all: assert (Hlub : lastUpdate (account_of s' (msg_sender env))
                      = block_timestamp env) by (by rewrite Ha').
  all: assert (Hrab : rewardsAccrued (account_of s' (msg_sender env)) = 0)
         by (by rewrite Ha').
  all: destruct (N.eq_dec (staked (account_of s (msg_sender env))) 0) as [Hz|Hnz];
    [unfold pendingRewards; by rewrite Hstb, Hz, Hrab|].
  all: assert (Htot0 : totalScaled_at (rewardRate s') (block_timestamp env)
                         (account_of s' (msg_sender env))
                       = rewardRemainder (account_of s' (msg_sender env)))
         by (unfold totalScaled_at;
             rewrite Hlub, N.sub_diag, N.mul_0_r; apply N.add_0_l).
  all: pose proof MAX_UINT256_large as Hbig;
    change (2 ^ 128) with 340282366920938463463374607431768211456 in Hbig;
    assert (HremMax : rewardRemainder (account_of s' (msg_sender env))
                      <= MAX_UINT256) by (unfold SCALE in Hrem'; lia).
  all: rewrite pendingRewards_ok;
    rewrite ?Htot0, ?Hrab, ?Hlub, ?Hstb, ?Hrate, ?N.sub_diag, ?N.mul_0_r,
      ?(N.div_small _ _ Hrem'); try done; lia.
Qed.

Lemma claim_pays_pending_witness :
  transfers [Emit (RewardsAccrued 7 6000);
             Moved (TransferTo 1 7 6000); Emit (Withdrawn 7 0 6000)]
  = [TransferTo (STAKING_TOKEN after_stake) 7 (0 + 6000)] /\
  rewardsAccrued (account_of
    (fst (transact (env_of 7 (t0 + 60) true) (withdrawPrincipal 0 true)
            after_stake)) 7) = 0 /\
  pendingRewards
    (fst (transact (env_of 7 (t0 + 60) true) (withdrawPrincipal 0 true)
            after_stake)) (t0 + 60) 7 = Ok 0.
Proof.
  apply (claim_pays_pending (env_of 7 (t0 + 60) true) 0 after_stake).
  - apply reachable_step, reachable_step, (reachable_init 1 SCALE 9).
    reflexivity.
  - right. vm_compute. discriminate.
  - vm_compute. reflexivity.
  - vm_compute. reflexivity.
Defined.

(** X23. Unstaking the whole stake frees the whole deposit: in a reachable
    state that is not suspended, when the accrual commit succeeds, an
    [unstake] of exactly the caller's stake completes, leaves nothing
    staked, clears the cycle clock, lowers [totalStaked] by that stake and
    keeps the deposit and the rewards of the commit. *)
Theorem unstake_all_frees_the_deposit env (s : State) a1 evs :
  reachable s ->
  paused s = false ->
  0 < staked (account_of s (msg_sender env)) ->
  _updateRewards (rewardRate s) (block_timestamp env)
    (account_of s (msg_sender env)) (msg_sender env) = Ok (a1, evs) ->
  exists s',
    execute env (unstakeCall (staked (account_of s (msg_sender env)))) s
    = Ok (s', evs ++ [Emit (Unstaked (msg_sender env)
                              (staked (account_of s (msg_sender env))))]) /\
    staked (account_of s' (msg_sender env)) = 0 /\
    stakeStart (account_of s' (msg_sender env)) = 0 /\
    deposited (account_of s' (msg_sender env))
      = deposited (account_of s (msg_sender env)) /\
    rewardsAccrued (account_of s' (msg_sender env)) = rewardsAccrued a1 /\
    totalStaked s' = totalStaked s - staked (account_of s (msg_sender env)).
Proof.
  intros Hr Hp Hst Hup.
  pose proof (staked_le_total s (msg_sender env) (reachable_total_inv s Hr))
    as Htot.
  destruct (updateRewards_frame _ _ _ _ _ _ Hup) as (Hd & Hs & _).
  eexists. split.
  - cbn [execute]. unfold unstake, whenNotPaused, nonReentrant, checked_sub.
    rewrite Hp, Hup. run_tests. rewrite Hs, N.sub_diag.
    change (0 =? 0) with true. cbv iota. reflexivity.
  - rewrite account_of_set_totalStaked, account_of_set_account.
    case_decide; [|done]. rstep. repeat split; done.
Qed.

Lemma unstake_all_frees_the_deposit_witness :
  exists s',
    execute (env_of 7 (t0 + 60) true)
      (unstakeCall (staked (account_of after_stake 7))) after_stake
    = Ok (s', [Emit (RewardsAccrued 7 6000)]
              ++ [Emit (Unstaked 7 (staked (account_of after_stake 7)))]) /\
    staked (account_of s' 7) = 0 /\
    stakeStart (account_of s' 7) = 0 /\
    deposited (account_of s' 7) = deposited (account_of after_stake 7) /\
    rewardsAccrued (account_of s' 7)
      = rewardsAccrued (mkAccount 100 100 6000 (t0 + 60) t0 0) /\
    totalStaked s' = totalStaked after_stake - staked (account_of after_stake 7).
Proof.
  apply (unstake_all_frees_the_deposit (env_of 7 (t0 + 60) true) after_stake
           (mkAccount 100 100 6000 (t0 + 60) t0 0)
           [Emit (RewardsAccrued 7 6000)]).
  - apply reachable_step, reachable_step, (reachable_init 1 SCALE 9).
    reflexivity.
  - vm_compute. reflexivity.
  - vm_compute. reflexivity.
  - vm_compute. reflexivity.
Defined.

(** ** The checkpoint clock *)

Lemma updateRewards_clock rate now (a a' : Account) user evs :
  _updateRewards rate now a user = Ok (a', evs) ->
  lastUpdate a' = now /\
  (0 < staked a -> lastUpdate a ≠ 0 -> lastUpdate a <= now).
Proof.
  intros H. split.
  - by destruct (updateRewards_frame _ _ _ _ _ _ H) as (_ & _ & _ & ? & _).
  - intros Hst Hlu. unfold _updateRewards, checked_sub in H.
    destruct (N.eqb_spec (lastUpdate a) 0) as [|_]; [done|].
    destruct (N.ltb_spec 0 (staked a)) as [_|]; [|lia].
    destruct (N.leb_spec (lastUpdate a) now) as [|]; [done|discriminate H].
Qed.

(** X24. A completed call either leaves the caller's [lastUpdate] or sets it to
    the block timestamp.  For an account that stakes and has been
    committed it never moves backwards, whatever the timestamp: a commit
    at an earlier time reverts.  For any account it does not move
    backwards when the clock has not. *)
Theorem lastUpdate_never_goes_back env c (s s' : State) l :
  execute env c s = Ok (s', l) ->
  let a := account_of s (msg_sender env) in
  let a' := account_of s' (msg_sender env) in
  (lastUpdate a' = lastUpdate a \/ lastUpdate a' = block_timestamp env) /\
  (0 < staked a -> lastUpdate a ≠ 0 -> lastUpdate a <= lastUpdate a') /\
  (lastUpdate a <= block_timestamp env -> lastUpdate a <= lastUpdate a').
Proof.
  intros Hex. cbv zeta.
  destruct c; open_ops Hex; follow Hex; injection Hex as <- <-;
    repeat match goal with
    | Hup : _updateRewards _ _ _ _ = Ok _ |- _ =>
        apply updateRewards_clock in Hup; destruct Hup as (? & ?)
    end;
    rewrite ?account_of_set_totalStaked, ?account_of_set_rewardRate,
      ?account_of_set_paused, ?account_of_set_account;
    try (case_decide; [|done]);
    repeat case_match; rstep; nbool;
    (split; [|split]); intros; auto; try lia.
  all: match goal with
       | Hc : 0 < staked _ -> _ |- _ => etransitivity; [apply Hc; lia|lia]
       end.
Qed.

Lemma lastUpdate_never_goes_back_witness :
  lastUpdate (account_of after_stake 7) = lastUpdate (account_of after_deposit 7)
  \/ lastUpdate (account_of after_stake 7) = block_timestamp (env_of 7 t0 true).
Proof.
  apply (lastUpdate_never_goes_back (env_of 7 t0 true) (stakeCall 100)
           after_deposit after_stake [Emit (Staked 7 100); Emit (Stake 7 100)]).
  vm_compute. reflexivity.
Defined.

(** * The demo scripts against the contract *)

Lemma pctOf_bounds (value pct : Z) :
  (0 <= value -> 0 <= pct <= 100 -> 0 <= pctOf value pct <= value)%Z.
Proof.
  intros Hv Hp. unfold pctOf.
  rewrite Z.quot_div_nonneg by lia. split.
  - apply Z.div_pos; nia.
  - apply Z.div_le_upper_bound; nia.
Qed.

(** With enough idle balance and a non-zero amount, only an arithmetic
    panic can stop a [stake] in a running contract. *)
Lemma stake_errors env (amount : N) (s : State) e :
  paused s = false -> amount ≠ 0 ->
  staked (account_of s (msg_sender env))
    <= deposited (account_of s (msg_sender env)) ->
  amount <= deposited (account_of s (msg_sender env))
            - staked (account_of s (msg_sender env)) ->
  execute env (stakeCall amount) s = Err e -> e = Panic.
Proof.
  intros Hp Hne Hsolv Hidle H. open_ops H. follow H; nbool; try lia.
  all: try (injection H as <-; reflexivity).
  all: try congruence.
  injection H as <-.
  match goal with
  | Hu : _updateRewards _ _ _ _ = Err _ |- _ =>
      exact (updateRewards_error _ _ _ _ _ Hu)
  end.
Qed.

(** X25. The stake that [quickDemo.ts] plans is always within the idle balance,
    whatever the percentage configured, so when the script sends it the
    contract rejects it neither as a zero amount nor for lack of balance:
    in a running contract only an arithmetic panic can stop it. *)
Theorem quickDemo_stake_is_accepted env (s : State) (stakePercent : Z) :
  let acct := getAccount s (msg_sender env) in
  let toStake :=
    quickDemo_toStake (Z.of_N (deposited acct)) (Z.of_N (staked acct))
      stakePercent in
  reachable s ->
  (0 <= toStake <= Z.of_N (deposited acct - staked acct))%Z /\
  ((0 < toStake)%Z -> paused s = false ->
   forall e, execute env (stakeCall (Z.to_N toStake)) s = Err e -> e = Panic).
Proof.
  intros acct toStake Hr.
  destruct (reachable_accounts_inv s Hr (msg_sender env)) as (Hsolv & _).
  fold (getAccount s (msg_sender env)) in Hsolv. fold acct in Hsolv.
  assert (Hb : (0 <= toStake <= Z.of_N (deposited acct - staked acct))%Z).
  { subst toStake. unfold quickDemo_toStake. cbv zeta.
    repeat match goal with
    | |- context [(?x >? ?y)%Z] => destruct (Z.gtb_spec x y)
    end; lia. }
  split; [exact Hb|]. intros Hpos Hp e.
  apply stake_errors; unfold getAccount in *; fold acct; try done; lia.
Qed.

Lemma quickDemo_stake_is_accepted_witness :
  (0 <= quickDemo_toStake
          (Z.of_N (deposited (getAccount after_deposit 7%N)))
          (Z.of_N (staked (getAccount after_deposit 7%N))) 250
     <= Z.of_N (deposited (getAccount after_deposit 7%N)
                - staked (getAccount after_deposit 7%N)))%Z.
Proof.
  apply (proj1 (quickDemo_stake_is_accepted (env_of 7 t0 true) after_deposit 250
    ltac:(apply reachable_step, (reachable_init 1 SCALE 9); reflexivity))).
Defined.

(** X26. The showcase script does not cap its stake.  With a percentage from 0
    to 100 the amount it plans is within the idle balance and is accepted
    like the one above; with a percentage of 200 or more and a non-empty
    deposit the amount exceeds the idle balance and the contract rejects
    it with [InsufficientBalance]. *)
Theorem showcase_stake_needs_a_percentage env (s : State) (stakePct : Z) :
  let acct := getAccount s (msg_sender env) in
  let toStake :=
    showcase_toStake (Z.of_N (deposited acct)) (Z.of_N (staked acct)) stakePct in
  reachable s -> paused s = false ->
  ((0 <= stakePct <= 100)%Z ->
   (0 <= toStake <= Z.of_N (deposited acct - staked acct))%Z /\
   ((0 < toStake)%Z ->
    forall e, execute env (stakeCall (Z.to_N toStake)) s = Err e -> e = Panic)) /\
  ((200 <= stakePct)%Z -> 0 < deposited acct ->
   execute env (stakeCall (Z.to_N toStake)) s
   = Err (InsufficientBalance (deposited acct - staked acct) (Z.to_N toStake))).
Proof.
  intros acct toStake Hr Hp.
  destruct (reachable_accounts_inv s Hr (msg_sender env)) as (Hsolv & _).
  fold (getAccount s (msg_sender env)) in Hsolv. fold acct in Hsolv.
  split.
  - intros Hpct.
    pose proof (pctOf_bounds (Z.of_N (deposited acct)) stakePct
                  ltac:(lia) Hpct) as Hb.
    assert (Hts : (0 <= toStake <= Z.of_N (deposited acct - staked acct))%Z).
    { subst toStake. unfold showcase_toStake. cbv zeta.
      destruct (Z.gtb_spec (pctOf (Z.of_N (deposited acct)) stakePct)
                  (Z.of_N (staked acct))); lia. }
    split; [exact Hts|]. intros Hpos e.
    apply stake_errors; unfold getAccount in *; fold acct; try done; lia.
  - intros Hpct Hdep.
    assert (Hdes : (2 * Z.of_N (deposited acct)
                    <= pctOf (Z.of_N (deposited acct)) stakePct)%Z).
    { unfold pctOf. rewrite Z.quot_div_nonneg by nia.
      apply Z.div_le_lower_bound; nia. }
    assert (Hts : (Z.of_N (deposited acct - staked acct) < toStake)%Z).
    { subst toStake. unfold showcase_toStake. cbv zeta.
      destruct (Z.gtb_spec (pctOf (Z.of_N (deposited acct)) stakePct)
                  (Z.of_N (staked acct))); lia. }
    cbn [execute]. unfold stake, whenNotPaused, nonReentrant, checked_sub.
    rewrite Hp. unfold getAccount in *. fold acct.
    run_tests. reflexivity.
Qed.

Lemma showcase_stake_needs_a_percentage_witness :
  execute (env_of 7 t0 true)
    (stakeCall (Z.to_N (showcase_toStake
                          (Z.of_N (deposited (getAccount after_deposit 7)))
                          (Z.of_N (staked (getAccount after_deposit 7))) 250)))
    after_deposit
  = Err (InsufficientBalance
           (deposited (getAccount after_deposit 7)
            - staked (getAccount after_deposit 7))
           (Z.to_N (showcase_toStake
                      (Z.of_N (deposited (getAccount after_deposit 7)))
                      (Z.of_N (staked (getAccount after_deposit 7))) 250))).
Proof.
  apply (proj2 (showcase_stake_needs_a_percentage (env_of 7 t0 true)
                  after_deposit 250
    ltac:(apply reachable_step, (reachable_init 1 SCALE 9); reflexivity)
    ltac:(vm_compute; reflexivity))).
  - vm_compute. discriminate.
  - vm_compute. reflexivity.
Defined.

(** X27. The deposit step of [quickDemo.ts] reaches the target: the amount it
    plans is zero exactly when the target is already met, and when it is
    positive a completed deposit of it leaves the caller's deposit exactly
    at the target. *)
Theorem quickDemo_deposit_reaches_target env (s s' : State) l (target : Z) :
  let already := Z.of_N (deposited (getAccount s (msg_sender env))) in
  let needed := neededDeposit target already in
  (0 <= needed)%Z /\
  (needed = 0%Z <-> (target <= already)%Z) /\
  ((0 < needed)%Z ->
   execute env (depositPrincipal (Z.to_N needed)) s = Ok (s', l) ->
   Z.of_N (deposited (getAccount s' (msg_sender env))) = target).
Proof.
  intros already needed.
  assert (Hn : needed = Z.max 0 (target - already)).
  { subst needed. unfold neededDeposit.
    destruct (Z.gtb_spec target already); lia. }
  split; [lia|]. split; [lia|]. intros Hpos Hex.
  destruct (deposit_inv _ _ _ _ _ Hex) as (a1 & evs & _ & Ha' & _).
  unfold getAccount in *. rewrite Ha'. cbn [deposited set_deposited].
  subst already. lia.
Qed.

Lemma quickDemo_deposit_reaches_target_witness :
  (0 <= neededDeposit 100 (Z.of_N (deposited (getAccount genesis 7%N))))%Z.
Proof.
  apply (quickDemo_deposit_reaches_target (env_of 7 t0 true) genesis
           genesis [] 100).
Defined.

(** X28. The annual-rate withdrawal that the scripts plan, a percentage from 0
    to 100 of the caller's stake, is within the stake: when it is not zero
    the contract rejects it neither as a zero amount nor for lack of
    stake, and only an arithmetic panic or the custody can stop it. *)
Theorem scripted_annual_withdrawal_is_accepted env (s : State) (pct : Z) :
  let acct := getAccount s (msg_sender env) in
  let amount := pctOf (Z.of_N (staked acct)) pct in
  (0 <= pct <= 100)%Z ->
  (0 <= amount <= Z.of_N (staked acct))%Z /\
  ((0 < amount)%Z ->
   forall e, execute env (withdrawAnnual (Z.to_N amount)) s = Err e ->
             e = Panic \/ e = CustodyTransferFailed).
Proof.
  intros acct amount Hpct.
  pose proof (pctOf_bounds (Z.of_N (staked acct)) pct ltac:(lia) Hpct) as Hb.
  split; [exact Hb|]. intros Hpos e.
  apply withdraw_uint256_errors; unfold getAccount in *; fold acct; lia.
Qed.

Lemma scripted_annual_withdrawal_is_accepted_witness :
  (0 <= pctOf (Z.of_N (staked (getAccount after_stake 7%N))) 25
     <= Z.of_N (staked (getAccount after_stake 7%N)))%Z.
Proof.
  apply (proj1 (scripted_annual_withdrawal_is_accepted (env_of 7 t0 true)
                  after_stake 25 ltac:(lia))).
Defined.

(** ** Atomicity on error *)




